(** * ACM problem tracker: record store, schema migration and git sync

    A shallow embedding of [server.py] and [src/git_utils.py].

    - Python [str] values are lists of Unicode code points ([list N]).
    - JSON values are the inductive [pyval]; a Python [dict] is an
      insertion-ordered association list, because [json.dumps] writes the
      keys in insertion order.
    - Exceptions are modelled by the [result] type.
    - Files are explicit state ([fs]); the shell is an oracle threaded
      through the git functions together with the log of issued commands. *)

From Stdlib Require Import ZArith NArith String Ascii Lia DecimalPos.
From stdpp Require Import base option list gmap.

Set Warnings "-register-all".

Local Open Scope N_scope.

(** ** Python strings *)

Abbreviation str := (list N).

Fixpoint bytes_of (s : string) : list N :=
  match s with
  | EmptyString => []
  | String a s' => N_of_ascii a :: bytes_of s'
  end.

(** Source literals are written in UTF-8; [utf8_decode] turns the bytes of a
    literal into its code points. *)
Fixpoint utf8_decode (bs : list N) : str :=
  match bs with
  | [] => []
  | b :: r =>
    if b <? 128 then b :: utf8_decode r
    else if b <? 224 then
      match r with
      | b1 :: r1 => ((b - 192) * 64 + (b1 - 128)) :: utf8_decode r1
      | _ => []
      end
    else if b <? 240 then
      match r with
      | b1 :: b2 :: r2 =>
        ((b - 224) * 4096 + (b1 - 128) * 64 + (b2 - 128)) :: utf8_decode r2
      | _ => []
      end
    else
      match r with
      | b1 :: b2 :: b3 :: r3 =>
        ((b - 240) * 262144 + (b1 - 128) * 4096 + (b2 - 128) * 64 + (b3 - 128))
          :: utf8_decode r3
      | _ => []
      end
  end.

Definition lit (s : string) : str := utf8_decode (bytes_of s).

(** [str.isspace] on one code point (CPython's [_PyUnicode_IsWhitespace]). *)
Definition isspace (c : N) : bool :=
  ((9 <=? c) && (c <=? 13)) || ((28 <=? c) && (c <=? 32))
  || (c =? 133) || (c =? 160) || (c =? 5760)
  || ((8192 <=? c) && (c <=? 8202))
  || (c =? 8232) || (c =? 8233) || (c =? 8239) || (c =? 8287) || (c =? 12288).

Fixpoint lstrip (s : str) : str :=
  match s with
  | [] => []
  | c :: r => if isspace c then lstrip r else s
  end.

Fixpoint rstrip (s : str) : str :=
  match s with
  | [] => []
  | c :: r =>
    match rstrip r with
    | [] => if isspace c then [] else [c]
    | r' => c :: r'
    end
  end.

(** [s.strip()] *)
Definition strip (s : str) : str := rstrip (lstrip s).

(** [s.lower()], on the ASCII letters.  [str.lower] also maps cased letters
    outside ASCII; the only ones whose image contains an ASCII letter are
    U+212A (to k) and U+0130 (to i followed by U+0307), so the comparison
    with ['done'] made by the source is not affected. *)
Definition lower_char (c : N) : N :=
  if (65 <=? c) && (c <=? 90) then c + 32 else c.

Definition lower (s : str) : str := map lower_char s.

Fixpoint is_prefix (p s : str) : bool :=
  match p, s with
  | [], _ => true
  | a :: p', b :: s' => (a =? b) && is_prefix p' s'
  | _ :: _, [] => false
  end.

(** [s.replace(old, new)] for a non-empty [old]: leftmost, non-overlapping
    occurrences.  [skip] counts the characters of a matched occurrence that
    are still to be dropped. *)
Fixpoint replace_from (old new : str) (skip : nat) (s : str) : str :=
  match s with
  | [] => []
  | c :: r =>
    match skip with
    | S k => replace_from old new k r
    | O =>
      if is_prefix old s
      then new ++ replace_from old new (length old - 1)%nat r
      else c :: replace_from old new O r
    end
  end.

Definition replace (old new s : str) : str := replace_from old new O s.

Definition str_eqb (a b : str) : bool := bool_decide (a = b).

(** Universal newlines, as a file opened in text mode is read: [CR LF] and
    a lone [CR] become [LF]. *)
Fixpoint universal_newlines (s : str) : str :=
  match s with
  | [] => []
  | c :: r =>
    if c =? 13 then
      10 :: match r with
            | c2 :: r' => if c2 =? 10 then universal_newlines r' else universal_newlines r
            | [] => []
            end
    else c :: universal_newlines r
  end.

(** ** Exceptions *)

Inductive exn :=
| TypeError
| KeyError
| IndexError
| JSONDecodeError
| UnicodeDecodeError
| RecursionError
| HTTPException (status_code : Z).

Inductive result (A : Type) :=
| Ok (a : A)
| Raise (e : exn).
Arguments Ok {A} a.
Arguments Raise {A} e.

Definition rbind {A B} (m : result A) (f : A → result B) : result B :=
  match m with
  | Ok a => f a
  | Raise e => Raise e
  end.

#[global] Instance result_bind : MBind result := fun A B f m => rbind m f.
#[global] Instance result_ret : MRet result := @Ok.

(** ** Keys and literals of [server.py] *)

Definition k_id : str := Eval vm_compute in lit "id".
Definition k_has_solution : str := Eval vm_compute in lit "has_solution".
Definition k_owner : str := Eval vm_compute in lit "owner".
Definition k_solved : str := Eval vm_compute in lit "solved".
Definition k_status : str := Eval vm_compute in lit "status".
Definition k_unsolved_stage : str := Eval vm_compute in lit "unsolved_stage".
Definition k_unsolved_custom_label : str :=
  Eval vm_compute in lit "unsolved_custom_label".
Definition k_tags : str := Eval vm_compute in lit "tags".
Definition k_pass_count : str := Eval vm_compute in lit "pass_count".
Definition k_assignee : str := Eval vm_compute in lit "assignee".
Definition k_updated_at : str := Eval vm_compute in lit "updated_at".
Definition k_created_at : str := Eval vm_compute in lit "created_at".
Definition k_solution_markdown : str := Eval vm_compute in lit "solution_markdown".
Definition k_solution_md : str := Eval vm_compute in lit "solution_md".
Definition k_solution : str := Eval vm_compute in lit "solution".

Definition k_ok : str := Eval vm_compute in lit "ok".

Definition k_title : str := Eval vm_compute in lit "title".
Definition k_link : str := Eval vm_compute in lit "link".
Definition k_source : str := Eval vm_compute in lit "source".
Definition k_notes : str := Eval vm_compute in lit "notes".

Definition k_total_problems : str := Eval vm_compute in lit "total_problems".
Definition k_problems : str := Eval vm_compute in lit "problems".
Definition k_letter : str := Eval vm_compute in lit "letter".
Definition k_attempt_count : str := Eval vm_compute in lit "attempt_count".
Definition k_my_status : str := Eval vm_compute in lit "my_status".

Definition s_ac : str := Eval vm_compute in lit "ac".
Definition s_attempted : str := Eval vm_compute in lit "attempted".
Definition s_unsubmitted : str := Eval vm_compute in lit "unsubmitted".

Definition LETTERS : str := Eval vm_compute in lit "ABCDEFGHIJKLMNOPQRSTUVWXYZ".

Definition s_done : str := Eval vm_compute in lit "done".

(** The [UnsolvedStage] literals. *)
Definition stage_unseen : str := Eval vm_compute in lit "未看题".
Definition stage_no_idea : str := Eval vm_compute in lit "已看题无思路".
Definition stage_not_implemented : str := Eval vm_compute in lit "知道做法未实现".

Definition valid_stage (s : str) : bool :=
  str_eqb s stage_unseen || str_eqb s stage_no_idea
  || str_eqb s stage_not_implemented.

(** [str(n)] for an integer. *)
Fixpoint uint_str (d : Decimal.uint) : str :=
  match d with
  | Decimal.Nil => []
  | Decimal.D0 d => 48 :: uint_str d
  | Decimal.D1 d => 49 :: uint_str d
  | Decimal.D2 d => 50 :: uint_str d
  | Decimal.D3 d => 51 :: uint_str d
  | Decimal.D4 d => 52 :: uint_str d
  | Decimal.D5 d => 53 :: uint_str d
  | Decimal.D6 d => 54 :: uint_str d
  | Decimal.D7 d => 55 :: uint_str d
  | Decimal.D8 d => 56 :: uint_str d
  | Decimal.D9 d => 57 :: uint_str d
  end.

Definition str_of_Z (z : Z) : str :=
  if (z <? 0)%Z then 45 :: uint_str (N.to_uint (Z.abs_N z))
  else uint_str (N.to_uint (Z.abs_N z)).

(** ** Strings of shell commands *)

Definition nl : str := [10].
Definition dquote : N := 34.
Definition squote : N := 39.
Definition backslash : N := 92.

(** [sep.join(parts)] *)
Fixpoint join (sep : str) (parts : list str) : str :=
  match parts with
  | [] => []
  | [p] => p
  | p :: parts' => p ++ sep ++ join sep parts'
  end.

(** [shlex.quote]: a string of safe characters ([\w@%+=:,./-], ASCII) is
    returned as it is, any other is wrapped in single quotes. *)
Definition shlex_safe (c : N) : bool :=
  ((97 <=? c) && (c <=? 122)) || ((65 <=? c) && (c <=? 90))
  || ((48 <=? c) && (c <=? 57)) || (c =? 95)
  || (c =? 64) || (c =? 37) || (c =? 43) || (c =? 61) || (c =? 58)
  || (c =? 44) || (c =? 46) || (c =? 47) || (c =? 45).

Definition shlex_quote (s : str) : str :=
  match s with
  | [] => [squote; squote]
  | _ =>
    if forallb shlex_safe s then s
    else [squote] ++ replace [squote] [squote; dquote; squote; dquote; squote] s
         ++ [squote]
  end.

(** The commit command of both [git_push] functions:
    [msg.replace('"', '\\"')] put between double quotes. *)
Definition escape_message (message : str) : str :=
  replace [dquote] [backslash; dquote] message.

Definition commit_command (message : str) : str :=
  lit "git commit -m " ++ [dquote] ++ escape_message message ++ [dquote].

(** *** How [sh] reads a double-quoted word

    The commands are run with [shell=True], that is by [/bin/sh -c].  Within
    double quotes (POSIX XCU 2.2.3) a backslash quotes the next character
    when that is one of [$], backquote, double quote, backslash or newline
    (a quoted newline is removed), and is kept otherwise; [$] and backquote
    start an expansion; an unquoted double quote ends the word.
    [read_dquoted acc s] reads [s], the text after the opening quote. *)
Inductive dquoted :=
| Closed (word rest : str)
| Expansion (before rest : str)
| Unterminated.

Fixpoint read_dquoted_from (skip : bool) (acc s : str) : dquoted :=
  match s with
  | [] => Unterminated
  | c :: r =>
    if skip then read_dquoted_from false acc r
    else if c =? dquote then Closed acc r
    else if (c =? 36) || (c =? 96) then Expansion acc r
    else if c =? backslash then
      match r with
      | [] => Unterminated
      | c2 :: _ =>
        if (c2 =? 36) || (c2 =? 96) || (c2 =? dquote) || (c2 =? backslash)
        then read_dquoted_from true (acc ++ [c2]) r
        else if c2 =? 10 then read_dquoted_from true acc r
        else read_dquoted_from false (acc ++ [c]) r
      end
    else read_dquoted_from false (acc ++ [c]) r
  end.

Definition read_dquoted (s : str) : dquoted := read_dquoted_from false [] s.

(** The text that [sh] reads after the opening quote of the message. *)
Definition after_open_quote (message : str) : str :=
  escape_message message ++ [dquote].

(** ** The shell

    [exec] is the outcome of running one command line in a directory: exit
    code, standard output, standard error, and the new state of the
    directory and of its remotes.  The [world] also records the commands
    issued and the cached git configuration. *)
Inductive cwd := BASE_DIR | DATA_DIR.

Record sh_result := ShResult {
  returncode : Z;
  stdout : str;
  stderr : str;
  cmd : str
}.

Class Shell := {
  env : Type;
  exec : cwd → str → env → (Z * str * str) * env
}.

Record git_config := GitConfig {
  cfg_repo_url : str;
  cfg_branch : str;
  cfg_last_updated : str
}.

Record world `{Shell} := World {
  state : env;
  issued : list (cwd * str);
  config_file : option git_config
}.

Arguments World {_} _ _ _.

Definition prog `{Shell} (A : Type) : Type := world → A * world.

Definition prog_ret `{Shell} {A} (a : A) : prog A := fun w => (a, w).

Definition prog_bind `{Shell} {A B} (m : prog A) (f : A → prog B) : prog B :=
  fun w => let '(a, w') := m w in f a w'.

#[global] Instance prog_mbind `{Shell} : MBind prog := fun A B f m => prog_bind m f.
#[global] Instance prog_mret `{Shell} : MRet prog := @prog_ret _.

(** [_run(cmd, shell=True, cwd=...)] and the dictionary made of its result. *)
Definition run_sh `{Shell} (dir : cwd) (cmd : str) : prog sh_result :=
  fun w =>
    let '((rc, out, err), e) := exec dir cmd (state w) in
    (ShResult rc out err cmd, World e (issued w ++ [(dir, cmd)]) (config_file w)).

(** ** The interpreter

    The behaviour of Python floats and of the conversions [int(str)] and
    [repr] is that of the interpreter, not of this repository: the
    development is parametric in it. *)
Class PythonRuntime := {
  pyfloat : Type;
  (** [bool(f)] *)
  float_bool : pyfloat → bool;
  (** [int(f)]; [None] when it raises ([nan], [inf]). *)
  float_int : pyfloat → option Z;
  (** [int(s)] for a string; [None] when it raises [ValueError]. *)
  int_of_str : str → option Z
}.

(** JSON values. *)
Inductive pyval `{PythonRuntime} :=
| VNone
| VBool (b : bool)
| VInt (n : Z)
| VFloat (f : pyfloat)
| VStr (s : str)
| VList (l : list pyval)
| VDict (d : list (str * pyval)).

(** [str(v)] of a float, a list or a dict. *)
Class PythonRepr `{PythonRuntime} := repr : pyval → str.

Module Server.

Section Store.

Context `{PythonRuntime} `{!PythonRepr}.

Definition dict := list (str * pyval).

Definition is_none (v : pyval) : bool :=
  match v with VNone => true | _ => false end.

(** Truth value of [v] in a condition. *)
Definition truthy (v : pyval) : bool :=
  match v with
  | VNone => false
  | VBool b => b
  | VInt n => negb (n =? 0)%Z
  | VFloat f => float_bool f
  | VStr s => negb (bool_decide (s = []))
  | VList l => match l with [] => false | _ => true end
  | VDict d => match d with [] => false | _ => true end
  end.

(** [a or b] *)
Definition py_or (a b : pyval) : pyval := if truthy a then a else b.

(** [str(v)] *)
Definition py_str (v : pyval) : str :=
  match v with
  | VNone => lit "None"
  | VBool true => lit "True"
  | VBool false => lit "False"
  | VInt n => str_of_Z n
  | VStr s => s
  | _ => repr v
  end.

(** [int(v)]; [None] stands for the [TypeError], [ValueError] or
    [OverflowError] that [int] raises. *)
Definition py_int (v : pyval) : option Z :=
  match v with
  | VInt n => Some n
  | VBool b => Some (if b then 1 else 0)%Z
  | VFloat f => float_int f
  | VStr s => int_of_str s
  | _ => None
  end.

(** [s.strip() or None] *)
Definition strip_or_none (s : str) : pyval :=
  match strip s with
  | [] => VNone
  | s' => VStr s'
  end.

(** *** Dictionaries *)

(** [k in d] and [d[k]] *)
Fixpoint dict_get (k : str) (d : dict) : option pyval :=
  match d with
  | [] => None
  | (k', v) :: d' => if decide (k' = k) then Some v else dict_get k d'
  end.

Definition dict_has (k : str) (d : dict) : bool :=
  match dict_get k d with Some _ => true | None => false end.

(** [d.get(k)] *)
Definition get (k : str) (d : dict) : pyval :=
  match dict_get k d with Some v => v | None => VNone end.

(** [d[k] = v]: an existing key keeps its position, a new one goes last. *)
Fixpoint dict_set (k : str) (v : pyval) (d : dict) : dict :=
  match d with
  | [] => [(k, v)]
  | (k', v') :: d' =>
    if decide (k' = k) then (k, v) :: d' else (k', v') :: dict_set k v d'
  end.

(** The dictionary left by [d.pop(k, None)]; the popped value is [get k d]. *)
Fixpoint dict_pop (k : str) (d : dict) : dict :=
  match d with
  | [] => []
  | (k', v) :: d' =>
    if decide (k' = k) then dict_pop k d' else (k', v) :: dict_pop k d'
  end.

(** [d.update(e)] *)
Definition dict_update (d e : dict) : dict :=
  fold_left (fun acc kv => dict_set kv.1 kv.2 acc) e d.

(** [stage not in {"未看题", "已看题无思路", "知道做法未实现"}]: the membership
    test hashes [stage], which raises [TypeError] for a list or a dict. *)
Definition not_in_stages (stage : pyval) : result bool :=
  match stage with
  | VList _ | VDict _ => Raise TypeError
  | VStr s => Ok (negb (valid_stage s))
  | _ => Ok true
  end.

(** *** [normalize_record] *)

Definition normalize_record (rec : dict) : result dict :=
  let rec := dict_pop k_has_solution rec in
  let owner := get k_owner rec in
  let rec := dict_pop k_owner rec in
  let rec :=
    if dict_has k_solved rec then rec
    else
      let status := lower (py_str (py_or (get k_status rec) (VStr []))) in
      dict_set k_solved (VBool (str_eqb status s_done)) rec in
  rec ←
    (if negb (dict_has k_unsolved_stage rec)
     then Ok (dict_set k_unsolved_stage VNone rec)
     else
       let stage := get k_unsolved_stage rec in
       b ← not_in_stages stage;
       Ok (if b : bool then dict_set k_unsolved_stage VNone rec else rec));
  let custom_label := get k_unsolved_custom_label rec in
  let custom_label :=
    if is_none custom_label then custom_label
    else strip_or_none (py_str custom_label) in
  let rec :=
    dict_set k_unsolved_custom_label
      (if truthy (get k_solved rec) then VNone else custom_label) rec in
  let rec :=
    if negb (dict_has k_tags rec) || is_none (get k_tags rec)
    then dict_set k_tags (VList []) rec else rec in
  let rec :=
    if dict_has k_pass_count rec && negb (is_none (get k_pass_count rec))
    then
      match py_int (get k_pass_count rec) with
      | Some n => dict_set k_pass_count (VInt n) rec
      | None => dict_set k_pass_count VNone rec
      end
    else rec in
  let assignee := get k_assignee rec in
  let assignee :=
    if is_none assignee && truthy owner then owner else assignee in
  let assignee :=
    if is_none assignee then assignee
    else strip_or_none (py_str assignee) in
  let rec := dict_set k_assignee assignee rec in
  let rec :=
    if truthy (get k_solved rec)
    then dict_set k_unsolved_custom_label VNone
           (dict_set k_unsolved_stage VNone rec)
    else rec in
  Ok rec.


(** The successive blocks of [normalize_record], one definition each, as
    the proofs follow them ([normalize_record_blocks] below). *)
Definition drop_computed (rec : dict) : dict :=
  dict_pop k_owner (dict_pop k_has_solution rec).

Definition default_solved (rec : dict) : dict :=
  if dict_has k_solved rec then rec
  else
    let status := lower (py_str (py_or (get k_status rec) (VStr []))) in
    dict_set k_solved (VBool (str_eqb status s_done)) rec.

Definition check_stage (rec : dict) : result dict :=
  if negb (dict_has k_unsolved_stage rec)
  then Ok (dict_set k_unsolved_stage VNone rec)
  else
    b ← not_in_stages (get k_unsolved_stage rec);
    Ok (if b : bool then dict_set k_unsolved_stage VNone rec else rec).

(** [str(v).strip() or None] unless [v] is [None] *)
Definition clean_text (v : pyval) : pyval :=
  if is_none v then v else strip_or_none (py_str v).

Definition clean_label (rec : dict) : dict :=
  dict_set k_unsolved_custom_label
    (if truthy (get k_solved rec) then VNone
     else clean_text (get k_unsolved_custom_label rec)) rec.

Definition default_tags (rec : dict) : dict :=
  if negb (dict_has k_tags rec) || is_none (get k_tags rec)
  then dict_set k_tags (VList []) rec else rec.

Definition coerce_pass_count (rec : dict) : dict :=
  if dict_has k_pass_count rec && negb (is_none (get k_pass_count rec))
  then
    match py_int (get k_pass_count rec) with
    | Some n => dict_set k_pass_count (VInt n) rec
    | None => dict_set k_pass_count VNone rec
    end
  else rec.

Definition migrate_assignee (owner : pyval) (rec : dict) : dict :=
  let assignee := get k_assignee rec in
  let assignee := if is_none assignee && truthy owner then owner else assignee in
  dict_set k_assignee (clean_text assignee) rec.

Definition clear_when_solved (rec : dict) : dict :=
  if truthy (get k_solved rec)
  then dict_set k_unsolved_custom_label VNone (dict_set k_unsolved_stage VNone rec)
  else rec.

(** *** [normalize_contest] *)

(** [len(v)] *)
Definition py_len (v : pyval) : result nat :=
  match v with
  | VStr s => Ok (length s)
  | VList l => Ok (length l)
  | VDict d => Ok (length d)
  | _ => Raise TypeError
  end.

(** [v[i]] for [i < len(v)].  A decoded JSON object has string keys only, so
    indexing it with an integer raises [KeyError]. *)
Definition py_index (v : pyval) (i : nat) : result pyval :=
  match v with
  | VStr s => match s !! i with Some c => Ok (VStr [c]) | None => Raise IndexError end
  | VList l => match l !! i with Some x => Ok x | None => Raise IndexError end
  | VDict _ => Raise KeyError
  | _ => Raise TypeError
  end.

(** [LETTERS[i]] *)
Definition letter_at (i : nat) : result str :=
  match LETTERS !! i with
  | Some c => Ok [c]
  | None => Raise IndexError
  end.

(** [e.get(k, v)] *)
Definition get_default (k : str) (v : pyval) (e : dict) : pyval :=
  match dict_get k e with Some x => x | None => v end.

(** [int(v or 0)], with [0] when [int] raises. *)
Definition count_or_zero (v : pyval) : pyval :=
  match py_int (py_or v (VInt 0)) with
  | Some n => VInt n
  | None => VInt 0
  end.

(** [v not in ('ac', 'attempted', 'unsubmitted')]: a tuple is searched with
    [==], nothing is hashed. *)
Definition not_a_status (v : pyval) : bool :=
  match v with
  | VStr s => negb (str_eqb s s_ac || str_eqb s s_attempted || str_eqb s s_unsubmitted)
  | _ => true
  end.

Definition base_entry (letter : str) : dict :=
  [(k_letter, VStr letter); (k_pass_count, VInt 0); (k_attempt_count, VInt 0);
   (k_my_status, VStr s_unsubmitted)].

(** One turn of the loop of [normalize_contest]: the entry appended to [out]. *)
Definition contest_entry (probs : pyval) (i : nat) : result pyval :=
  letter ← letter_at i;
  let base := base_entry letter in
  n ← py_len probs;
  if bool_decide (i < n)%nat then
    p ← py_index probs i;
    match p with
    | VDict e =>
      let d := dict_update base (map (fun kv => (kv.1, get_default kv.1 kv.2 e)) base) in
      let d := dict_set k_pass_count (count_or_zero (get k_pass_count d)) d in
      let d := dict_set k_attempt_count (count_or_zero (get k_attempt_count d)) d in
      let d :=
        if not_a_status (get k_my_status d)
        then dict_set k_my_status (VStr s_unsubmitted) d else d in
      Ok (VDict d)
    | _ => Ok (VDict base)
    end
  else Ok (VDict base).

(** [for i in range(...)]: the entries in order. *)
Fixpoint contest_entries (probs : pyval) (range : list nat) : result (list pyval) :=
  match range with
  | [] => Ok []
  | i :: range' =>
    d ← contest_entry probs i;
    out ← contest_entries probs range';
    Ok (d :: out)
  end.

Definition clamp_total (v : pyval) : Z :=
  match py_int (py_or v (VInt 1)) with
  | Some n => Z.max 1 (Z.min 15 n)
  | None => 1%Z
  end.

Definition normalize_contest (rec : dict) : result dict :=
  let total := clamp_total (get k_total_problems rec) in
  let rec := dict_set k_total_problems (VInt total) rec in
  let probs := py_or (get k_problems rec) (VList []) in
  out ← contest_entries probs (seq 0 (Z.to_nat total));
  Ok (dict_set k_problems (VList out) rec).


(** *** Files

    [DATA_FILE] and its backup are read with [Path.read_text(encoding="utf-8")]
    and written with [Path.write_text(..., encoding="utf-8")].  [file] is what
    a file holds, its bytes; [text] is a Python [str].  [read_text] raises
    [UnicodeDecodeError] on bytes that are not UTF-8, and the text it returns
    has universal newlines (CR LF and CR are read as LF), so it need not
    encode to the bytes of the file.  [json.loads] raises [JSONDecodeError] on
    text that is not JSON and may raise other exceptions ([RecursionError] on
    deep nesting); a decoded container is a list of objects.  Both types and
    both codecs are parameters.  [empty_container] is the literal ["[]"].
    A side-file is keyed by the problem id, from which [_solution_path] derives
    its path, and holds the text written to it. *)
Class JsonFiles := {
  text : Type;
  loads : text → result (list dict);
  dumps : list dict → text;
  empty_container : text;
  file : Type;
  read_text : file → result text;
  write_text : text → file
}.

Context `{!JsonFiles}.

Record fs := Fs {
  data_file : file;
  backup_file : option file;
  solutions : gmap str str
}.

(** A computation that reads and writes files and may raise. *)
Definition io (A : Type) : Type := fs → result A * fs.

Definition io_ret {A} (a : A) : io A := fun st => (Ok a, st).

Definition io_bind {A B} (m : io A) (f : A → io B) : io B :=
  fun st =>
    match m st with
    | (Ok a, st') => f a st'
    | (Raise e, st') => (Raise e, st')
    end.

Definition io_raise {A} (e : exn) : io A := fun st => (Raise e, st).

Definition io_lift {A} (r : result A) : io A := fun st => (r, st).

#[local] Instance io_mbind : MBind io := fun A B f m => io_bind m f.
#[local] Instance io_mret : MRet io := @io_ret.

(** [DATA_FILE.write_text(t, encoding="utf-8")] *)
Definition write_data_file (t : text) : io unit :=
  fun st => (Ok tt, Fs (write_text t) (backup_file st) (solutions st)).

(** [backup.write_text(t, encoding="utf-8")] *)
Definition write_backup_file (t : text) : io unit :=
  fun st => (Ok tt, Fs (data_file st) (Some (write_text t)) (solutions st)).

(** [DATA_FILE.read_text(encoding="utf-8")] *)
Definition read_data_file : io text := fun st => (read_text (data_file st), st).

(** [json.loads(f.read_text(encoding="utf-8"))] *)
Definition read_json (f : file) : result (list dict) :=
  raw ← read_text f;
  loads raw.

(** [try: m except json.JSONDecodeError: handler] *)
Definition except_json {A} (m handler : io A) : io A :=
  fun st =>
    match m st with
    | (Raise JSONDecodeError, st') => handler st'
    | outcome => outcome
    end.

Definition _solution_exists (problem_id : str) : io bool :=
  fun st => (Ok (bool_decide (is_Some (solutions st !! problem_id))), st).

(** [path.read_text(encoding="utf-8")] of a side-file, [None] when there is
    none: the text comes back with universal newlines. *)
Definition _read_solution (problem_id : str) : io (option str) :=
  fun st => (Ok (universal_newlines <$> solutions st !! problem_id), st).

Definition _write_solution (problem_id markdown : str) : io unit :=
  fun st =>
    (Ok tt, Fs (data_file st) (backup_file st) (<[problem_id := markdown]> (solutions st))).

Definition _delete_solution (problem_id : str) : io unit :=
  fun st =>
    (Ok tt, Fs (data_file st) (backup_file st) (delete problem_id (solutions st))).

(** *** [_load] and [_save] *)

Definition legacy_keys : list str :=
  [k_solution_markdown; k_solution_md; k_solution].

(** The inner [for key in (...)] loop of [_load]: the first key that holds a
    truthy value is popped; the result is the content and the record left. *)
Fixpoint extract_legacy (keys : list str) (rec : dict) : option (pyval * dict) :=
  match keys with
  | [] => None
  | key :: keys' =>
    if dict_has key rec && truthy (get key rec)
    then Some (get key rec, dict_pop key rec)
    else extract_legacy keys' rec
  end.

(** The key that this loop pops, if any. *)
Definition legacy_key (rec : dict) : option str :=
  find (λ key, dict_has key rec && truthy (get key rec)) legacy_keys.

(** Whether the loop body of [_load] sets [changed] for [rec]: a legacy
    solution is popped, or a non-null [has_solution] is dropped. *)
Definition sets_changed (rec : dict) : bool :=
  bool_decide (is_Some (legacy_key rec)) || negb (is_none (get k_has_solution rec)).

(** The body of the [for rec in items] loop of [_load]: the record appended
    to [normalized_items] and the new value of [changed]. *)
Definition migrate_record (rec : dict) (changed : bool) : io (dict * bool) :=
  let '(content, rec, changed) :=
    match extract_legacy legacy_keys rec with
    | Some (content, rec') => (content, rec', true)
    | None => (VNone, rec, changed)
    end in
  _ ← (if truthy content && truthy (get k_id rec)
           then _write_solution (py_str (get k_id rec)) (py_str content)
           else io_ret tt);
  let changed := if negb (is_none (get k_has_solution rec)) then true else changed in
  let rec := dict_pop k_has_solution rec in
  r ← io_lift (normalize_record rec);
  io_ret (r, changed).

Fixpoint migrate_all (items : list dict) (changed : bool) : io (list dict * bool) :=
  match items with
  | [] => io_ret ([], changed)
  | rec :: items' =>
    '(r, changed) ← migrate_record rec changed;
    '(rs, changed) ← migrate_all items' changed;
    io_ret (r :: rs, changed)
  end.

(** [clean = dict(rec); clean.pop('has_solution', None)] for every record *)
Definition sanitize (items : list dict) : list dict :=
  map (dict_pop k_has_solution) items.

(** The last loop of [_load]: the [has_solution] flag of one record. *)
Definition attach_flag (rec : dict) : io dict :=
  let pid := get k_id rec in
  if truthy pid then
    b ← _solution_exists (py_str pid);
    io_ret (dict_set k_has_solution (VBool b) rec)
  else io_ret (dict_set k_has_solution (VBool false) rec).

Fixpoint attach_flags (items : list dict) : io (list dict) :=
  match items with
  | [] => io_ret []
  | rec :: items' =>
    r ← attach_flag rec;
    rs ← attach_flags items';
    io_ret (r :: rs)
  end.

(** The [try] statement of [_load]: the records of the container, or none
    after the backup and the reset when [json.loads] raises
    [JSONDecodeError].  The handler reads the file again. *)
Definition read_container : io (list dict) :=
  except_json
    (raw ← read_data_file;
     io_lift (loads raw))
    (raw ← read_data_file;
     _ ← write_backup_file raw;
     _ ← write_data_file empty_container;
     io_ret []).

(** The part of [_load] that runs under the lock. *)
Definition load_locked : io (list dict) :=
  items ← read_container;
  '(normalized_items, changed) ← migrate_all items false;
  _ ← (if changed : bool then write_data_file (dumps (sanitize normalized_items))
           else io_ret tt);
  io_ret normalized_items.

Definition _load : io (list dict) :=
  normalized_items ← load_locked;
  attach_flags normalized_items.

Definition _save (items : list dict) : io unit :=
  write_data_file (dumps (sanitize items)).

(** [rec.get('id') == pid] for a string [pid] *)
Definition id_is (pid : str) (rec : dict) : bool :=
  match get k_id rec with
  | VStr s => str_eqb s pid
  | _ => false
  end.

(** Position of the first record for which [test] holds. *)
Fixpoint find_index (test : dict → bool) (items : list dict) : option nat :=
  match items with
  | [] => None
  | rec :: items' =>
    if test rec then Some O else S <$> find_index test items'
  end.

(** [_load_and_find_problem]: the list and the position of the record found
    (the source returns an alias of that element of the list). *)
Definition _load_and_find_problem (pid : str) : io (list dict * nat) :=
  items ← _load;
  match find_index (id_is pid) items with
  | Some i => io_ret (items, i)
  | None => io_raise (HTTPException 404)
  end.

(** *** [put_solution]

    [markdown] is [payload.markdown]; [now] stands for
    [datetime.utcnow().isoformat() + "Z"]. *)
Definition put_solution (pid : str) (markdown : option str) (now : str) : io dict :=
  '(items, i) ← _load_and_find_problem pid;
  let markdown := replace [13; 10] [10] (default [] markdown) in
  has_solution ←
    (if negb (bool_decide (strip markdown = []))
     then _ ← _write_solution pid markdown; io_ret true
     else _ ← _delete_solution pid; io_ret false);
  let items :=
    alter (fun problem =>
             dict_set k_updated_at (VStr now)
               (dict_set k_has_solution (VBool has_solution) problem)) i items in
  _ ← _save items;
  io_ret [(k_ok, VBool true); (k_has_solution, VBool has_solution);
          (k_updated_at, VStr now)].


(** *** [ProblemIn], [Problem] and the create and update handlers *)

Inductive UnsolvedStage := StageUnseen | StageNoIdea | StageNotImplemented.

Definition stage_str (s : UnsolvedStage) : str :=
  match s with
  | StageUnseen => stage_unseen
  | StageNoIdea => stage_no_idea
  | StageNotImplemented => stage_not_implemented
  end.

Record ProblemIn := {
  title : str;
  link : option str;
  source : option str;
  tags : list str;
  assignee : option str;
  solved : bool;
  unsolved_stage : option UnsolvedStage;
  unsolved_custom_label : option str;
  pass_count : option Z;
  notes : option str
}.

Definition opt_val {A} (f : A → pyval) (o : option A) : pyval :=
  match o with Some a => f a | None => VNone end.

(** [item.model_dump(mode="json")] *)
Definition model_dump (item : ProblemIn) : dict :=
  [(k_title, VStr (title item));
   (k_link, opt_val VStr (link item));
   (k_source, opt_val VStr (source item));
   (k_tags, VList (VStr <$> tags item));
   (k_assignee, opt_val VStr (assignee item));
   (k_solved, VBool (solved item));
   (k_unsolved_stage, opt_val (fun s => VStr (stage_str s)) (unsolved_stage item));
   (k_unsolved_custom_label, opt_val VStr (unsolved_custom_label item));
   (k_pass_count, opt_val VInt (pass_count item));
   (k_notes, opt_val VStr (notes item))].

(** The validators [_strip_optional_text] and [_strip_notes]. *)
Definition _strip_optional_text (v : pyval) : pyval :=
  match v with
  | VStr s => strip_or_none s
  | _ => v
  end.

(** The validator [_clear_unsolved_when_solved]. *)
Definition _clear_unsolved_when_solved (values : dict) : dict :=
  if truthy (get k_solved values)
  then dict_set k_unsolved_custom_label VNone (dict_set k_unsolved_stage VNone values)
  else values.

(** [Problem(id=..., created_at=..., updated_at=..., **data).model_dump(mode="json")]
    for the [data] dumped from a [ProblemIn]: the validators of the class run
    again, then the fields of [Problem] follow those of [ProblemIn]. *)
Definition Problem (id created_at updated_at : str) (data : dict) : dict :=
  let data := dict_set k_source (_strip_optional_text (get k_source data)) data in
  let data := dict_set k_assignee (_strip_optional_text (get k_assignee data)) data in
  let data :=
    dict_set k_unsolved_custom_label
      (_strip_optional_text (get k_unsolved_custom_label data)) data in
  let data := dict_set k_notes (_strip_optional_text (get k_notes data)) data in
  let data := _clear_unsolved_when_solved data in
  data ++ [(k_id, VStr id); (k_created_at, VStr created_at);
           (k_updated_at, VStr updated_at); (k_has_solution, VBool false)].

(** The [data] of both handlers: the dump of [item], with the unsolved fields
    cleared when [solved] is set. *)
Definition handler_data (item : ProblemIn) : dict :=
  let data := model_dump item in
  if truthy (get k_solved data)
  then dict_set k_unsolved_custom_label VNone (dict_set k_unsolved_stage VNone data)
  else data.

(** [create_problem]; [uuid] stands for [str(uuid4())]. *)
Definition create_problem (item : ProblemIn) (uuid now : str) : io dict :=
  let rec := Problem uuid now now (handler_data item) in
  items ← _load;
  _ ← _save (items ++ [rec]);
  b ← _solution_exists (py_str (get k_id rec));
  io_ret (dict_set k_has_solution (VBool b) rec).

(** The scan [for i, rec in enumerate(items): if rec["id"] == pid] of
    [update_problem]: [rec["id"]] raises [KeyError] on a record without id. *)
Fixpoint find_by_id (pid : str) (items : list dict) : result (option (nat * dict)) :=
  match items with
  | [] => Ok None
  | rec :: items' =>
    match dict_get k_id rec with
    | None => Raise KeyError
    | Some v =>
      if match v with VStr s => str_eqb s pid | _ => false end
      then Ok (Some (O, rec))
      else
        o ← find_by_id pid items';
        Ok (match o with Some (i, r) => Some (S i, r) | None => None end)
    end
  end.

Definition update_problem (pid : str) (item : ProblemIn) (now : str) : io dict :=
  items ← _load;
  found ← io_lift (find_by_id pid items);
  match found with
  | Some (i, rec) =>
    let rec := dict_update rec (handler_data item) in
    let rec := dict_set k_updated_at (VStr now) rec in
    new ← io_lift (normalize_record rec);
    _ ← _save (<[i := new]> items);
    b ← _solution_exists pid;
    io_ret (dict_set k_has_solution (VBool b) new)
  | None => io_raise (HTTPException 404)
  end.

(** *** Predicates and helpers of the statements *)

(** What [unsolved_stage] may hold after the check. *)
Definition stage_ok (o : option pyval) : Prop :=
  o = Some VNone ∨ ∃ s, o = Some (VStr s) ∧ valid_stage s = true.

(** A text field after [clean_text]: null, or a non-empty stripped string. *)
Definition text_ok (o : option pyval) : Prop :=
  o = Some VNone ∨ ∃ s, o = Some (VStr s) ∧ strip s = s ∧ s ≠ [].

(** What [pass_count] may hold after the coercion. *)
Definition pass_ok (o : option pyval) : Prop :=
  o = None ∨ o = Some VNone ∨ ∃ n, o = Some (VInt n).

(** The records that [normalize_record] produces. *)
Record normalized (r : dict) : Prop := {
  nf_has_solution : dict_get k_has_solution r = None;
  nf_owner : dict_get k_owner r = None;
  nf_solved : is_Some (dict_get k_solved r);
  nf_stage : stage_ok (dict_get k_unsolved_stage r);
  nf_label : text_ok (dict_get k_unsolved_custom_label r);
  nf_tags : ∃ v, dict_get k_tags r = Some v ∧ is_none v = false;
  nf_pass_count : pass_ok (dict_get k_pass_count r);
  nf_assignee : text_ok (dict_get k_assignee r);
  nf_cleared :
    truthy (get k_solved r) = true →
    dict_get k_unsolved_stage r = Some VNone
    ∧ dict_get k_unsolved_custom_label r = Some VNone
}.

(** The keys that [normalize_record] writes or removes. *)
Definition touched_keys : list str :=
  [k_has_solution; k_owner; k_solved; k_unsolved_stage; k_unsolved_custom_label;
   k_tags; k_pass_count; k_assignee].

(** A truthy [solved] comes with both unsolved fields present and null. *)
Definition solved_clears (r : dict) : Prop :=
  truthy (get k_solved r) = true →
  dict_get k_unsolved_stage r = Some VNone
  ∧ dict_get k_unsolved_custom_label r = Some VNone.

(** The flags are computed from the side-files only. *)
Definition flag (sols : gmap str str) (rec : dict) : dict :=
  let pid := get k_id rec in
  dict_set k_has_solution
    (VBool (if truthy pid then bool_decide (is_Some (sols !! py_str pid)) else false)) rec.

(** The record handed to [normalize_record] by the loop body. *)
Definition stripped (rec : dict) : dict :=
  dict_pop k_has_solution
    (match legacy_key rec with Some key => dict_pop key rec | None => rec end).

(** *** The other handlers of the problem store *)

Definition k_deleted_id : str := Eval vm_compute in lit "deleted_id".
Definition k_markdown : str := Eval vm_compute in lit "markdown".

(** [rec["id"] != pid] for a string [pid]; [None] when [rec] has no id and
    [rec["id"]] raises [KeyError]. *)
Definition id_differs (pid : str) (rec : dict) : option bool :=
  match dict_get k_id rec with
  | None => None
  | Some (VStr s) => Some (negb (str_eqb s pid))
  | Some _ => Some true
  end.

(** [[rec for rec in items if rec["id"] != pid]] *)
Fixpoint without_id (pid : str) (items : list dict) : result (list dict) :=
  match items with
  | [] => Ok []
  | rec :: items' =>
    match id_differs pid rec with
    | None => Raise KeyError
    | Some keep =>
      rest ← without_id pid items';
      Ok (if keep : bool then rec :: rest else rest)
    end
  end.

Definition delete_problem (pid : str) : io dict :=
  items ← _load;
  new_items ← io_lift (without_id pid items);
  if bool_decide (length new_items = length items)
  then io_raise (HTTPException 404)
  else
    _ ← _save new_items;
    _ ← _delete_solution pid;
    io_ret [(k_ok, VBool true); (k_deleted_id, VStr pid)].

Definition get_solution (pid : str) : io dict :=
  '(items, i) ← _load_and_find_problem pid;
  found ← _read_solution pid;
  let markdown := default [] found in
  io_ret [(k_id, VStr pid); (k_markdown, VStr markdown);
          (k_has_solution, VBool (negb (bool_decide (markdown = []))));
          (k_updated_at, from_option (get k_updated_at) VNone (items !! i))].

Definition delete_solution_endpoint (pid : str) (now : str) : io dict :=
  '(items, i) ← _load_and_find_problem pid;
  _ ← _delete_solution pid;
  let items :=
    alter (fun problem =>
             dict_set k_updated_at (VStr now)
               (dict_set k_has_solution (VBool false) problem)) i items in
  _ ← _save items;
  io_ret [(k_ok, VBool true)].

(** One turn of the loop of [export_json]; [sols] are the side-files, read
    as [_read_solution] reads them. *)
Definition export_record (sols : gmap str str) (rec : dict) : dict :=
  let sol :=
    if truthy (get k_id rec)
    then universal_newlines <$> sols !! py_str (get k_id rec)
    else None in
  let data :=
    match sol with
    | Some ((_ :: _) as text) => dict_set k_solution_markdown (VStr text) rec
    | _ => rec
    end in
  dict_pop k_has_solution data.

Definition export_json : io (list dict) :=
  items ← _load;
  ((fun st => (Ok (export_record (solutions st) <$> items), st)) : io (list dict)).

(** No side-file is empty. *)
Definition sols_nonempty (sols : gmap str str) : Prop :=
  ∀ pid text, sols !! pid = Some text → text ≠ [].

(** The four keys of an entry, in the order of [base]. *)
Definition four (letter vp va vs : pyval) : dict :=
  [(k_letter, letter); (k_pass_count, vp); (k_attempt_count, va); (k_my_status, vs)].

(** The entry built from an input entry [e] that is an object. *)
Definition merged (letter : str) (e : dict) : dict :=
  four (get_default k_letter (VStr letter) e)
       (count_or_zero (get_default k_pass_count (VInt 0) e))
       (count_or_zero (get_default k_attempt_count (VInt 0) e))
       (if not_a_status (get_default k_my_status (VStr s_unsubmitted) e)
        then VStr s_unsubmitted
        else get_default k_my_status (VStr s_unsubmitted) e).

(** An entry of [problems] as [normalize_contest] leaves it. *)
Definition entry_ok (x : pyval) : Prop :=
  ∃ letter p a s,
    x = VDict [(k_letter, letter); (k_pass_count, VInt p);
               (k_attempt_count, VInt a); (k_my_status, VStr s)]
    ∧ not_a_status (VStr s) = false.

End Store.


(** *** The git endpoints of [server.py] *)

Section Git.

Context `{Shell}.

Definition _sh (cmd : str) : prog sh_result := run_sh BASE_DIR cmd.

Definition _git_in_repo : prog bool :=
  r ← _sh (lit "git rev-parse --is-inside-work-tree");
  mret ((returncode r =? 0)%Z && str_eqb (strip (stdout r)) (lit "true")).

Definition _git_current_branch : prog (option str) :=
  r ← _sh (lit "git rev-parse --abbrev-ref HEAD");
  mret (if (returncode r =? 0)%Z then Some (strip (stdout r)) else None).

(** The dictionaries returned by the two endpoints. *)
Inductive response :=
| NotAGitRepo
| NoChanges
| StepFailed (step : str) (r : sh_result)
| StepOk (step : str) (r : sh_result)
| PushFailed (tried : list str) (first second : sh_result)
| PullResult (ok : bool) (r : sh_result).

(** [s or d] for a string *)
Definition str_or (s d : str) : str :=
  match s with [] => d | _ => s end.

Definition git_push (message : str) (files : option (list str)) (add_all : bool)
  : prog response :=
  in_repo ← _git_in_repo;
  if negb in_repo then mret NotAGitRepo else
  a ← (if add_all || match files with Some (_ :: _) => false | _ => true end
       then _sh (lit "git add -A")
       else _sh (lit "git add " ++ join (lit " ") (shlex_quote <$> default [] files)));
  if negb (returncode a =? 0)%Z then mret (StepFailed (lit "add") a) else
  diff ← _sh (lit "git diff --cached --name-only");
  if negb (returncode diff =? 0)%Z then mret (StepFailed (lit "diff") diff) else
  if bool_decide (strip (stdout diff) = []) then mret NoChanges else
  c ← _sh (commit_command message);
  if negb (returncode c =? 0)%Z then mret (StepFailed (lit "commit") c) else
  p ← _sh (lit "git push");
  if (returncode p =? 0)%Z then mret (StepOk (lit "push") p) else
  current ← _git_current_branch;
  let branch := str_or (default [] current) (lit "main") in
  p2 ← _sh (lit "git push -u origin " ++ branch);
  if (returncode p2 =? 0)%Z then mret (StepOk (lit "push_upstream") p2) else
  mret (PushFailed [lit "git push"; lit "git push -u origin " ++ branch] p p2).

Definition git_pull (remote branch : str) : prog response :=
  in_repo ← _git_in_repo;
  if negb in_repo then mret NotAGitRepo else
  let remote := str_or (strip remote) (lit "origin") in
  let branch := str_or (strip branch) (lit "main") in
  result ← _sh (lit "git pull " ++ shlex_quote remote ++ lit " " ++ shlex_quote branch);
  if (returncode result =? 0)%Z then mret (PullResult true result)
  else mret (PullResult false result).

End Git.

End Server.

(** ** [src/git_utils.py] *)

Module GitUtils.

Section Sync.

Context `{Shell}.

Definition _sh (cmd : str) : prog sh_result := run_sh DATA_DIR cmd.

(** [save_git_config]; [now] stands for [datetime.now().isoformat()]. *)
Definition save_git_config (now repo_url branch : str) : prog unit :=
  fun w =>
    (tt, World (state w) (issued w)
           (Some (GitConfig (strip repo_url) (strip branch) now))).

Definition is_data_git_repo : prog bool :=
  r ← _sh (lit "git rev-parse --is-inside-work-tree");
  mret ((returncode r =? 0)%Z && str_eqb (strip (stdout r)) (lit "true")).

(** [not repo_url or not repo_url.strip()] *)
Definition blank (s : str) : bool :=
  bool_decide (s = []) || bool_decide (strip s = []).

Definition init_data_repo (now repo_url branch : str) : prog str :=
  let output : str := [] in
  in_repo ← is_data_git_repo;
  '(output, failed) ←
    (if in_repo : bool
     then mret (output ++ lit "ℹ️  data/ 目录已经是 Git 仓库" ++ nl ++ nl, false)
     else
       let output := output ++ lit "=== 初始化 Git 仓库 ===" ++ nl in
       result ← _sh (lit "git init");
       let output := output ++ stdout result ++ nl in
       if negb (returncode result =? 0)%Z
       then mret (output ++ lit "stderr: " ++ stderr result ++ nl
                    ++ nl ++ lit "❌ Git 初始化失败", true)
       else mret (output ++ lit "✓ Git 仓库初始化成功" ++ nl ++ nl, false));
  if failed : bool then mret output else
  if blank repo_url
  then mret (output ++ lit "⚠️  未提供仓库地址，跳过远程配置" ++ nl)
  else
    let output := output ++ lit "=== 配置远程仓库 ===" ++ nl in
    check_remote ← _sh (lit "git remote get-url origin");
    '(result, output) ←
      (if (returncode check_remote =? 0)%Z
       then
         result ← _sh (lit "git remote set-url origin " ++ repo_url);
         mret (result, output ++ lit "更新远程仓库地址: " ++ repo_url ++ nl)
       else
         result ← _sh (lit "git remote add origin " ++ repo_url);
         mret (result, output ++ lit "添加远程仓库: " ++ repo_url ++ nl));
    if negb (returncode result =? 0)%Z
    then mret (output ++ lit "stderr: " ++ stderr result ++ nl
                 ++ nl ++ lit "❌ 远程仓库配置失败")
    else
      _ ← save_git_config now repo_url branch;
      mret (output ++ lit "✓ 远程仓库配置成功" ++ nl
              ++ lit "✓ 配置已保存到缓存" ++ nl).

(** The first lines of [git_pull] and [git_push]: initialise the repository,
    or point the remote at [repo_url]; the result is the output so far. *)
Definition ensure_repo (now repo_url branch : str) : prog str :=
  in_repo ← is_data_git_repo;
  if negb in_repo
  then
    out ← init_data_repo now repo_url branch;
    mret (out ++ nl)
  else if negb (blank repo_url)
  then
    _ ← _sh (lit "git remote set-url origin " ++ repo_url);
    _ ← save_git_config now repo_url branch;
    mret []
  else mret [].

Definition git_pull (now repo_url branch : str) : prog str :=
  output ← ensure_repo now repo_url branch;
  check_remote ← _sh (lit "git remote get-url origin");
  if negb (returncode check_remote =? 0)%Z
  then mret (output ++ lit "❌ 远程仓库未配置" ++ nl ++ lit "请先输入仓库地址")
  else
    let output := output ++ lit "=== git pull origin " ++ branch ++ lit " ===" ++ nl in
    result ← _sh (lit "git pull origin " ++ branch);
    let output :=
      output ++ lit "Return code: " ++ str_of_Z (returncode result) ++ nl ++ nl in
    let output := output ++ lit "stdout:" ++ nl ++ stdout result ++ nl ++ nl in
    let output :=
      match stderr result with
      | [] => output
      | _ => output ++ lit "stderr:" ++ nl ++ stderr result ++ nl
      end in
    if (returncode result =? 0)%Z
    then mret (output ++ nl ++ lit "✓ 成功拉取远程更新")
    else
      let output :=
        output ++ nl ++ lit "第一次拉取？尝试使用 --allow-unrelated-histories..." ++ nl in
      result2 ← _sh (lit "git pull origin " ++ branch ++ lit " --allow-unrelated-histories");
      let output := output ++ nl ++ stdout result2 ++ nl in
      if (returncode result2 =? 0)%Z
      then mret (output ++ nl ++ lit "✓ 成功拉取远程更新")
      else mret (output ++ nl ++ lit "❌ 拉取失败").

(** [git_push]; [stamp] stands for
    [datetime.now().strftime('%Y-%m-%d %H:%M:%S')]. *)
Definition git_push (now stamp repo_url : str) (message : option str) (branch : str)
  : prog str :=
  output ← ensure_repo now repo_url branch;
  check_remote ← _sh (lit "git remote get-url origin");
  if negb (returncode check_remote =? 0)%Z
  then mret (output ++ lit "❌ 远程仓库未配置" ++ nl ++ lit "请先输入仓库地址")
  else
    let message :=
      match message with
      | Some m => if blank m then lit "update data (" ++ stamp ++ lit ")" else m
      | None => lit "update data (" ++ stamp ++ lit ")"
      end in
    let output := output ++ lit "=== git add -A ===" ++ nl in
    result ← _sh (lit "git add -A");
    let output := output ++ lit "Return code: " ++ str_of_Z (returncode result) ++ nl in
    if negb (returncode result =? 0)%Z
    then mret (output ++ lit "stderr: " ++ stderr result ++ nl ++ nl ++ lit "❌ git add 失败")
    else
      diff ← _sh (lit "git diff --cached --name-only");
      if bool_decide (strip (stdout diff) = [])
      then mret (lit "ℹ️ 没有需要提交的更改")
      else
        let output := output ++ nl ++ lit "Changed files:" ++ nl ++ stdout diff ++ nl in
        let output := output ++ nl ++ lit "=== git commit ===" ++ nl in
        result ← _sh (commit_command message);
        let output := output ++ lit "Return code: " ++ str_of_Z (returncode result) ++ nl in
        let output := output ++ lit "stdout: " ++ stdout result ++ nl in
        if negb (returncode result =? 0)%Z
        then mret (output ++ lit "stderr: " ++ stderr result ++ nl
                     ++ nl ++ lit "❌ git commit 失败")
        else
          let output := output ++ nl ++ lit "=== git push origin " ++ branch ++ lit " ===" ++ nl in
          result ← _sh (lit "git push origin " ++ branch);
          let output := output ++ lit "Return code: " ++ str_of_Z (returncode result) ++ nl in
          let output := output ++ lit "stdout: " ++ stdout result ++ nl in
          if (returncode result =? 0)%Z
          then mret (output ++ nl ++ lit "✓ 成功推送到远程")
          else
            let output := output ++ nl ++ lit "Trying: git push -u origin " ++ branch ++ nl in
            result ← _sh (lit "git push -u origin " ++ branch);
            let output := output ++ lit "Return code: " ++ str_of_Z (returncode result) ++ nl in
            let output := output ++ lit "stdout: " ++ stdout result ++ nl in
            let output :=
              match stderr result with
              | [] => output
              | _ => output ++ lit "stderr: " ++ stderr result ++ nl
              end in
            if (returncode result =? 0)%Z
            then mret (output ++ nl ++ lit "✓ 成功推送到远程（设置上游分支）")
            else mret (output ++ nl ++ lit "❌ 推送失败").

(** The message that [git_push] commits with. *)
Definition commit_message (stamp : str) (message : option str) : str :=
  match message with
  | Some m => if blank m then lit "update data (" ++ stamp ++ lit ")" else m
  | None => lit "update data (" ++ stamp ++ lit ")"
  end.

(** The cached configuration after a call that started in [w]: the one
    from before, or the one saved for an address that is not blank. *)
Definition kept_or_saved (now repo_url branch : str) (w w' : world) : Prop :=
  config_file w' = config_file w
  ∨ (blank repo_url = false
     ∧ config_file w' = Some (GitConfig (strip repo_url) (strip branch) now)).

(** The two command lines of [git_pull]. *)
Definition pull_command (branch : str) : str := lit "git pull origin " ++ branch.

Definition retry_command (branch : str) : str :=
  lit "git pull origin " ++ branch ++ lit " --allow-unrelated-histories".

End Sync.

End GitUtils.

(** ** An instance for the examples

    No float occurs in the examples, [int] reads plain ASCII digits, [repr]
    is never reached.  A file holds an encoded list of records, text that is
    not JSON, or bytes that are not UTF-8; a text stands for the bytes that
    [write_text] gives it.  The shell answers from a table. *)
Module Demo.

Fixpoint digits_value (acc : Z) (s : str) : option Z :=
  match s with
  | [] => Some acc
  | c :: r =>
    if (48 <=? c) && (c <=? 57)
    then digits_value (acc * 10 + Z.of_N (c - 48))%Z r
    else None
  end.

Definition int_of_digits (s : str) : option Z :=
  match strip s with
  | [] => None
  | r => digits_value 0%Z r
  end.

Definition runtime : PythonRuntime :=
  {| pyfloat := Empty_set;
     float_bool := λ _, false;
     float_int := λ _, None;
     int_of_str := int_of_digits |}.

Definition no_repr : @PythonRepr runtime := λ _, lit "<repr>".

Inductive file_text :=
| Encoded (items : list (@Server.dict runtime))
| Garbage (raw : str)
| NotUtf8.

Definition files : @Server.JsonFiles runtime :=
  {| Server.text := file_text;
     Server.loads := λ t, match t with Encoded l => Ok l | _ => Raise JSONDecodeError end;
     Server.dumps := Encoded;
     Server.empty_container := Encoded [];
     Server.file := file_text;
     Server.read_text := λ b,
       match b with
       | Encoded l => Ok (Encoded l)
       | Garbage raw => Ok (Garbage (universal_newlines raw))
       | NotUtf8 => Raise UnicodeDecodeError
       end;
     Server.write_text := λ t, t |}.

Fixpoint answer (table : list (str * (Z * str * str))) (cmd : str) : Z * str * str :=
  match table with
  | [] => (1%Z, [], lit "fatal")
  | (c, r) :: table' => if str_eqb c cmd then r else answer table' cmd
  end.

Definition scripted (table : list (str * (Z * str * str))) : Shell :=
  {| env := unit; exec := λ _ cmd e, (answer table cmd, e) |}.

End Demo.

(** ** Inputs of the examples *)

Module Inputs.
Import Server.

#[local] Existing Instances Demo.runtime Demo.no_repr Demo.files.

(** The record of the legacy migration test of the specification. *)
Definition legacy_record : dict :=
  [(k_id, VStr (lit "p1")); (k_status, VStr (lit "Done"));
   (k_solution_markdown, VStr (lit "# notes"))].

(** The same once the solution is popped. *)
Definition legacy_popped : dict :=
  [(k_id, VStr (lit "p1")); (k_status, VStr (lit "Done"))].

Definition legacy_normalized : dict :=
  [(k_id, VStr (lit "p1")); (k_status, VStr (lit "Done"));
   (k_solved, VBool true); (k_unsolved_stage, VNone);
   (k_unsolved_custom_label, VNone); (k_tags, VList []); (k_assignee, VNone)].

Definition legacy_start : fs := Fs (Demo.Encoded [legacy_record]) None ∅.

Definition legacy_loaded : fs :=
  Fs (Demo.Encoded [legacy_normalized]) None {[ lit "p1" := lit "# notes" ]}.

(** A record that only carries the deprecated [owner]. *)
Definition owner_record : dict := [(k_owner, VStr (lit "bob"))].

Definition owner_normalized : dict :=
  [(k_solved, VBool false); (k_unsolved_stage, VNone);
   (k_unsolved_custom_label, VNone); (k_tags, VList []);
   (k_assignee, VStr (lit "bob"))].

(** A contest whose only entry says it is problem Z. *)
Definition contest_z : dict :=
  [(k_total_problems, VInt 1);
   (k_problems, VList [VDict [(k_letter, VStr (lit "Z"))]])].

Definition contest_z_normalized : dict :=
  [(k_total_problems, VInt 1);
   (k_problems,
    VList [VDict [(k_letter, VStr (lit "Z")); (k_pass_count, VInt 0);
                  (k_attempt_count, VInt 0); (k_my_status, VStr s_unsubmitted)]])].

Definition corrupt_start : fs := Fs (Demo.Garbage (lit "[{")) None ∅.

(** A corrupt container that ends with CR LF, and one that is not UTF-8. *)
Definition crlf_start : fs := Fs (Demo.Garbage (lit "[{" ++ [13; 10])) None ∅.

Definition binary_start : fs := Fs Demo.NotUtf8 None ∅.

(** A record with a solution and no id. *)
Definition orphan_record : dict := [(k_solution, VStr (lit "lost text"))].

Definition orphan_normalized : dict :=
  [(k_solved, VBool false); (k_unsolved_stage, VNone);
   (k_unsolved_custom_label, VNone); (k_tags, VList []); (k_assignee, VNone)].

Definition orphan_start : fs := Fs (Demo.Encoded [orphan_record]) None ∅.

(** A repository whose remote has an unrelated history: the plain pull is
    refused, the pull with [--allow-unrelated-histories] goes through. *)
Definition unrelated : Shell :=
  Demo.scripted
    [(lit "git rev-parse --is-inside-work-tree", (0%Z, lit "true" ++ nl, []));
     (lit "git remote get-url origin", (0%Z, lit "git@example.org:data.git" ++ nl, []));
     (lit "git pull origin main",
      (128%Z, [], lit "fatal: refusing to merge unrelated histories" ++ nl));
     (lit "git pull origin main --allow-unrelated-histories",
      (0%Z, lit "Merge made by the 'ort' strategy." ++ nl, []))].

(** The world before any command, and after the commands [log]. *)
Definition after (log : list (cwd * str)) : @world unrelated :=
  @World unrelated (tt : @env unrelated) log None.

Definition fresh : @world unrelated := after [].

(** The run of [git_pull] in that repository, command by command. *)
Definition checked : @world unrelated :=
  after [(DATA_DIR, lit "git rev-parse --is-inside-work-tree")].

Definition remote_read : @world unrelated :=
  after [(DATA_DIR, lit "git rev-parse --is-inside-work-tree");
         (DATA_DIR, lit "git remote get-url origin")].

Definition pulled : @world unrelated :=
  after [(DATA_DIR, lit "git rev-parse --is-inside-work-tree");
         (DATA_DIR, lit "git remote get-url origin");
         (DATA_DIR, lit "git pull origin main")].

Definition remote_answer : sh_result :=
  ShResult 0 (lit "git@example.org:data.git" ++ nl) [] (lit "git remote get-url origin").

Definition refusal : sh_result :=
  ShResult 128 [] (lit "fatal: refusing to merge unrelated histories" ++ nl)
    (lit "git pull origin main").

(** *** Inputs of the further properties *)

(** A record that cannot be normalized. *)
Definition unhashable_record : dict := [(k_unsolved_stage, VList [])].

Definition unhashable_start : fs := Fs (Demo.Encoded [unhashable_record]) None ∅.

(** A request for a problem that is not solved yet. *)
Definition sample_item : ProblemIn :=
  {| title := lit "Two Sum";
     link := None;
     source := Some (lit "cf");
     tags := [lit "dp"];
     assignee := None;
     solved := false;
     unsolved_stage := Some StageUnseen;
     unsolved_custom_label := None;
     pass_count := Some 3%Z;
     notes := None |}.

(** A message with a quoted word. *)
Definition quoted_message : str := lit "fix " ++ [dquote] ++ lit "it" ++ [dquote].

(** A data repository with nothing staged. *)
Definition clean : Shell :=
  Demo.scripted
    [(lit "git rev-parse --is-inside-work-tree", (0%Z, lit "true" ++ nl, []));
     (lit "git remote get-url origin", (0%Z, lit "git@example.org:data.git" ++ nl, []));
     (lit "git add -A", (0%Z, [], []));
     (lit "git diff --cached --name-only", (0%Z, nl, []))].

Definition clean_after (log : list (cwd * str)) : @world clean :=
  @World clean (tt : @env clean) log None.

(** A repository whose branch has no upstream yet: the plain push is
    refused, the push with [-u] goes through. *)
Definition no_upstream : Shell :=
  Demo.scripted
    [(lit "git rev-parse --is-inside-work-tree", (0%Z, lit "true" ++ nl, []));
     (lit "git remote get-url origin", (0%Z, lit "git@example.org:data.git" ++ nl, []));
     (lit "git add -A", (0%Z, [], []));
     (lit "git diff --cached --name-only", (0%Z, lit "problems.json" ++ nl, []));
     (lit "git commit -m " ++ [dquote] ++ lit "notes" ++ [dquote],
      (0%Z, lit "1 file changed" ++ nl, []));
     (lit "git rev-parse --abbrev-ref HEAD", (0%Z, lit "main" ++ nl, []));
     (lit "git push -u origin main", (0%Z, [], lit "branch 'main' set up" ++ nl))].

Definition no_upstream_after (log : list (cwd * str)) : @world no_upstream :=
  @World no_upstream (tt : @env no_upstream) log None.

Definition updated_record : dict :=
  [(k_id, VStr (lit "p1")); (k_status, VStr (lit "Done"));
   (k_solved, VBool false); (k_unsolved_stage, VStr stage_unseen);
   (k_unsolved_custom_label, VNone); (k_tags, VList [VStr (lit "dp")]);
   (k_assignee, VNone); (k_title, VStr (lit "Two Sum")); (k_link, VNone);
   (k_source, VStr (lit "cf")); (k_pass_count, VInt 3); (k_notes, VNone);
   (k_updated_at, VStr (lit "2026-01-01T00:00:00Z"))].

Definition updated_state : fs :=
  Fs (Demo.Encoded [updated_record]) None {[ lit "p1" := lit "# notes" ]}.

Definition upstream_answer : sh_result :=
  ShResult 0 [] (lit "branch 'main' set up" ++ nl) (lit "git push -u origin main").

End Inputs.

(** * Properties *)

(** ** Strings *)

(** The literals are decoded from UTF-8. *)
Example stage_unseen_code_points : stage_unseen = [26410; 30475; 39064].
Proof. reflexivity. Qed.

Lemma lstrip_head (s : str) :
  lstrip s = [] ∨ ∃ c r, lstrip s = c :: r ∧ isspace c = false.
Proof.
  induction s as [|c r IH]; simpl; [by left|].
  destruct (isspace c) eqn:E; [exact IH|].
  right. by exists c, r.
Qed.

Lemma lstrip_fixed (c : N) (r : str) : isspace c = false → lstrip (c :: r) = c :: r.
Proof. intros E. simpl. by rewrite E. Qed.

Lemma rstrip_keeps_head (c : N) (r : str) :
  isspace c = false → ∃ r', rstrip (c :: r) = c :: r'.
Proof.
  intros E. simpl. destruct (rstrip r) as [|c' r'].
  - rewrite E. by exists [].
  - by exists (c' :: r').
Qed.

Lemma rstrip_idem (s : str) : rstrip (rstrip s) = rstrip s.
Proof.
  induction s as [|c r IH]; simpl; [done|].
  destruct (rstrip r) as [|c' r'] eqn:E.
  - destruct (isspace c) eqn:Ec; simpl; [done|]. by rewrite Ec.
  - simpl. simpl in IH. destruct (rstrip r') as [|c'' r''] eqn:E'.
    + destruct (isspace c') eqn:Ec'; [done|]. by rewrite IH.
    + by rewrite IH.
Qed.

(** [strip] is idempotent. *)
Lemma strip_idem (s : str) : strip (strip s) = strip s.
Proof.
  unfold strip.
  destruct (lstrip_head s) as [E|(c & r & E & Hc)]; rewrite E; [done|].
  destruct (rstrip_keeps_head c r Hc) as [r' E'].
  rewrite E', (lstrip_fixed _ _ Hc), <- E'. apply rstrip_idem.
Qed.

Lemma rstrip_nil_iff (s : str) : rstrip s = [] ↔ forallb isspace s = true.
Proof.
  induction s as [|c r IH]; simpl; [done|].
  destruct (rstrip r) as [|c' r'] eqn:E.
  - destruct (isspace c); simpl; [|done].
    split; intros _; [by apply IH|done].
  - split; [done|]. intros [_ Hr]%andb_true_iff. by apply IH in Hr.
Qed.

(** A string strips to nothing exactly when it is all white space. *)
Lemma strip_nil_iff (s : str) : strip s = [] ↔ forallb isspace s = true.
Proof.
  unfold strip. induction s as [|c r IH]; simpl; [done|].
  destruct (isspace c) eqn:E; simpl; [exact IH|].
  destruct (rstrip r); by rewrite ?E.
Qed.

Module ServerProofs.
Import Server.

Section Store.

Context `{PythonRuntime} `{!PythonRepr}.

Implicit Types (rec d : dict) (k : str) (v : pyval).

Lemma normalize_record_blocks rec :
  normalize_record rec =
  (r ← check_stage (default_solved (drop_computed rec));
   Ok (clear_when_solved
         (migrate_assignee (get k_owner (dict_pop k_has_solution rec))
            (coerce_pass_count (default_tags (clean_label r)))))).
Proof. reflexivity. Qed.

(** *** Dictionaries *)

Lemma dict_get_set k k' v d :
  dict_get k (dict_set k' v d) = if decide (k' = k) then Some v else dict_get k d.
Proof.
  induction d as [|[k0 v0] d IH]; simpl.
  - by repeat case_decide.
  - repeat (case_decide; simpl; subst); try done.
Qed.

Lemma dict_get_set_eq k v d : dict_get k (dict_set k v d) = Some v.
Proof. rewrite dict_get_set. by case_decide. Qed.

Lemma dict_get_set_ne k k' v d : k' ≠ k → dict_get k (dict_set k' v d) = dict_get k d.
Proof. intros. rewrite dict_get_set. by case_decide. Qed.

Lemma dict_get_pop k k' d :
  dict_get k (dict_pop k' d) = if decide (k' = k) then None else dict_get k d.
Proof.
  induction d as [|[k0 v0] d IH]; simpl.
  - by case_decide.
  - repeat (case_decide; simpl; subst); try done.
Qed.

Lemma dict_get_pop_eq k d : dict_get k (dict_pop k d) = None.
Proof. rewrite dict_get_pop. by case_decide. Qed.

Lemma dict_get_pop_ne k k' d : k' ≠ k → dict_get k (dict_pop k' d) = dict_get k d.
Proof. intros. rewrite dict_get_pop. by case_decide. Qed.

(** Storing the value a key already has changes nothing, not even the order. *)
Lemma dict_set_same k v d : dict_get k d = Some v → dict_set k v d = d.
Proof.
  induction d as [|[k0 v0] d IH]; simpl; [done|].
  case_decide; subst.
  - by intros [= ->].
  - intros Hd. by rewrite IH.
Qed.

Lemma dict_pop_absent k d : dict_get k d = None → dict_pop k d = d.
Proof.
  induction d as [|[k0 v0] d IH]; simpl; [done|].
  case_decide; [done|]. intros Hd. by rewrite IH.
Qed.

Lemma dict_has_true k d : dict_has k d = true ↔ is_Some (dict_get k d).
Proof. unfold dict_has. destruct (dict_get k d); split; (done || by eauto || by intros []). Qed.

Lemma dict_has_false k d : dict_has k d = false ↔ dict_get k d = None.
Proof. unfold dict_has. by destruct (dict_get k d). Qed.

Lemma get_Some k v d : dict_get k d = Some v → get k d = v.
Proof. unfold get. by intros ->. Qed.

Lemma get_None k d : dict_get k d = None → get k d = VNone.
Proof. unfold get. by intros ->. Qed.


(** Two keys of the source that differ. *)
Ltac key_ne := let E := fresh in intros E; vm_compute in E; discriminate E.

(** Reads a key through the [dict_set] and [dict_pop] of the keys of the
    source. *)
Ltac dict_simp :=
  repeat first
    [ rewrite dict_get_set_eq
    | rewrite dict_get_pop_eq
    | rewrite dict_get_set_ne by (done || key_ne)
    | rewrite dict_get_pop_ne by (done || key_ne) ].

(** *** The blocks of [normalize_record], one at a time *)

Lemma drop_computed_get k d :
  k_owner ≠ k → k_has_solution ≠ k →
  dict_get k (drop_computed d) = dict_get k d.
Proof. intros. unfold drop_computed. by dict_simp. Qed.

Lemma drop_computed_owner d : dict_get k_owner (drop_computed d) = None.
Proof. unfold drop_computed. by dict_simp. Qed.

Lemma drop_computed_has_solution d : dict_get k_has_solution (drop_computed d) = None.
Proof. unfold drop_computed. by dict_simp. Qed.

Lemma default_solved_get k d :
  k_solved ≠ k → dict_get k (default_solved d) = dict_get k d.
Proof. intros. unfold default_solved. case_match; [done|]. by dict_simp. Qed.

Lemma default_solved_solved d : is_Some (dict_get k_solved (default_solved d)).
Proof.
  unfold default_solved. destruct (dict_has k_solved d) eqn:E.
  - by apply dict_has_true.
  - dict_simp. eauto.
Qed.

Lemma check_stage_get k d d' :
  check_stage d = Ok d' → k_unsolved_stage ≠ k → dict_get k d' = dict_get k d.
Proof.
  unfold check_stage. intros Hd Hk. case_match.
  - injection Hd as <-. by dict_simp.
  - destruct (not_in_stages _) as [[]|]; simpl in Hd; [| |done];
      injection Hd as <-; by dict_simp.
Qed.

Lemma check_stage_stage d d' :
  check_stage d = Ok d' → stage_ok (dict_get k_unsolved_stage d').
Proof.
  unfold check_stage, stage_ok. intros Hd.
  destruct (dict_has k_unsolved_stage d) eqn:E; simpl in Hd.
  - apply dict_has_true in E as [v E]. rewrite (get_Some _ _ _ E) in Hd.
    destruct v; simpl in Hd; try done;
      try (injection Hd as <-; dict_simp; by left).
    destruct (valid_stage s) eqn:Es; simpl in Hd; injection Hd as <-.
    + right. by exists s.
    + dict_simp. by left.
  - injection Hd as <-. dict_simp. by left.
Qed.

(** [check_stage] raises only for a list or a dict under [unsolved_stage]. *)
Lemma check_stage_total d :
  (∀ l, dict_get k_unsolved_stage d ≠ Some (VList l)) →
  (∀ e, dict_get k_unsolved_stage d ≠ Some (VDict e)) →
  ∃ d', check_stage d = Ok d'.
Proof.
  intros Hl He. unfold check_stage, get.
  destruct (dict_has k_unsolved_stage d) eqn:E; simpl; [|by eauto].
  destruct (dict_get k_unsolved_stage d) as [[]|]; simpl; eauto.
  - by destruct (Hl l).
  - by destruct (He d0).
Qed.

Lemma clean_label_get k d :
  k_unsolved_custom_label ≠ k → dict_get k (clean_label d) = dict_get k d.
Proof. intros. unfold clean_label. by dict_simp. Qed.

Lemma default_tags_get k d : k_tags ≠ k → dict_get k (default_tags d) = dict_get k d.
Proof. intros. unfold default_tags. case_match; [|done]. by dict_simp. Qed.

Lemma coerce_pass_count_get k d :
  k_pass_count ≠ k → dict_get k (coerce_pass_count d) = dict_get k d.
Proof. intros. unfold coerce_pass_count. repeat case_match; by dict_simp. Qed.

Lemma migrate_assignee_get k owner d :
  k_assignee ≠ k → dict_get k (migrate_assignee owner d) = dict_get k d.
Proof. intros. unfold migrate_assignee. by dict_simp. Qed.

Lemma clear_when_solved_get k d :
  k_unsolved_stage ≠ k → k_unsolved_custom_label ≠ k →
  dict_get k (clear_when_solved d) = dict_get k d.
Proof. intros. unfold clear_when_solved. case_match; [|done]. by dict_simp. Qed.

Lemma strip_or_none_ok (s : str) : text_ok (Some (strip_or_none s)).
Proof.
  unfold strip_or_none, text_ok. destruct (strip s) as [|c r] eqn:E; [by left|].
  right. exists (c :: r). split_and!; [done| |done]. rewrite <- E. apply strip_idem.
Qed.

Lemma clean_text_ok v : text_ok (Some (clean_text v)).
Proof.
  unfold clean_text. destruct (is_none v) eqn:E.
  - destruct v; try done. by left.
  - apply strip_or_none_ok.
Qed.

Lemma clean_text_fixed v : text_ok (Some v) → clean_text v = v.
Proof.
  intros [[= ->]|(s & [= ->] & Hs & Hne)]; [done|].
  unfold clean_text, strip_or_none. simpl. rewrite Hs. by destruct s.
Qed.


Lemma clear_when_solved_stage d :
  dict_get k_unsolved_stage (clear_when_solved d) =
  if truthy (get k_solved d) then Some VNone else dict_get k_unsolved_stage d.
Proof. unfold clear_when_solved. case_match; [|done]. by dict_simp. Qed.

Lemma clear_when_solved_label d :
  dict_get k_unsolved_custom_label (clear_when_solved d) =
  if truthy (get k_solved d) then Some VNone else dict_get k_unsolved_custom_label d.
Proof. unfold clear_when_solved. case_match; [|done]. by dict_simp. Qed.

Lemma clean_label_label d : text_ok (dict_get k_unsolved_custom_label (clean_label d)).
Proof.
  unfold clean_label. dict_simp. case_match; [by left|]. apply clean_text_ok.
Qed.

Lemma default_tags_tags d :
  ∃ v, dict_get k_tags (default_tags d) = Some v ∧ is_none v = false.
Proof.
  unfold default_tags, dict_has, get.
  destruct (dict_get k_tags d) as [v|] eqn:E; simpl.
  - destruct (is_none v) eqn:Ev.
    + dict_simp. by eexists.
    + by exists v.
  - dict_simp. by eexists.
Qed.

Lemma coerce_pass_count_pass d : pass_ok (dict_get k_pass_count (coerce_pass_count d)).
Proof.
  unfold coerce_pass_count, pass_ok, dict_has, get.
  destruct (dict_get k_pass_count d) as [v|] eqn:E; simpl; [|by left].
  destruct (is_none v) eqn:Ev; simpl.
  - destruct v; try done. rewrite E. by right; left.
  - destruct (py_int v); dict_simp; [right; right; by eexists | by right; left].
Qed.

Lemma coerce_pass_count_keeps d :
  is_Some (dict_get k_pass_count d) →
  is_Some (dict_get k_pass_count (coerce_pass_count d)).
Proof.
  intros [v E]. unfold coerce_pass_count, dict_has, get. rewrite E. simpl.
  destruct (is_none v); simpl; [by rewrite E|].
  destruct (py_int v); dict_simp; eauto.
Qed.

Lemma migrate_assignee_assignee owner d :
  text_ok (dict_get k_assignee (migrate_assignee owner d)).
Proof. unfold migrate_assignee. dict_simp. apply clean_text_ok. Qed.

Lemma stage_ok_None_or (b : bool) o : stage_ok o → stage_ok (if b then Some VNone else o).
Proof. destruct b; [by left|done]. Qed.

Lemma text_ok_None_or (b : bool) o : text_ok o → text_ok (if b then Some VNone else o).
Proof. destruct b; [by left|done]. Qed.

(** *** Normal form *)

(** Reads a key through the blocks that leave it alone. *)
Ltac frames :=
  repeat first
    [ rewrite clear_when_solved_get by (done || key_ne)
    | rewrite migrate_assignee_get by (done || key_ne)
    | rewrite coerce_pass_count_get by (done || key_ne)
    | rewrite default_tags_get by (done || key_ne)
    | rewrite clean_label_get by (done || key_ne)
    | rewrite default_solved_get by (done || key_ne)
    | rewrite drop_computed_get by (done || key_ne) ].

Lemma normalize_record_normalized rec r : normalize_record rec = Ok r → normalized r.
Proof.
  rewrite normalize_record_blocks.
  destruct (check_stage _) as [d|] eqn:Hd; simpl; [|done].
  intros [= <-].
  pose proof (λ k, check_stage_get k _ _ Hd) as Hframe.
  set (owner := get k_owner _).
  split.
  - frames. rewrite Hframe by key_ne. frames. apply drop_computed_has_solution.
  - frames. rewrite Hframe by key_ne. frames. apply drop_computed_owner.
  - frames. rewrite Hframe by key_ne. apply default_solved_solved.
  - rewrite clear_when_solved_stage. apply stage_ok_None_or. frames.
    by apply check_stage_stage in Hd.
  - rewrite clear_when_solved_label. apply text_ok_None_or. frames.
    apply clean_label_label.
  - frames. apply default_tags_tags.
  - frames. apply coerce_pass_count_pass.
  - frames. apply migrate_assignee_assignee.
  - set (m := migrate_assignee _ _).
    assert (get k_solved (clear_when_solved m) = get k_solved d) as ->
      by (unfold get, m; by frames).
    assert (get k_solved m = get k_solved d) as E by (unfold get, m; by frames).
    rewrite clear_when_solved_stage, clear_when_solved_label, E.
    by intros ->.
Qed.


(** On a record in normal form every block is the identity. *)
Lemma normalize_record_fixed r : normalized r → normalize_record r = Ok r.
Proof.
  intros [Hhs Hown [vs Hsolved] Hstage Hlabel (vt & Htags & Hvt) Hpass Hassignee Hclr].
  rewrite normalize_record_blocks.
  assert (drop_computed r = r) as ->.
  { unfold drop_computed. by rewrite (dict_pop_absent _ _ Hhs), (dict_pop_absent _ _ Hown). }
  rewrite (dict_pop_absent _ _ Hhs), (get_None _ _ Hown).
  assert (default_solved r = r) as ->.
  { unfold default_solved, dict_has. by rewrite Hsolved. }
  assert (check_stage r = Ok r) as ->.
  { unfold check_stage, dict_has, get.
    destruct Hstage as [E|(s & E & Hs)]; rewrite E; simpl.
    - by rewrite dict_set_same.
    - by rewrite Hs. }
  simpl.
  assert (clean_label r = r) as ->.
  { unfold clean_label. apply dict_set_same.
    destruct (truthy (get k_solved r)) eqn:Et.
    - by destruct (Hclr eq_refl).
    - rewrite clean_text_fixed; unfold get;
        destruct (dict_get k_unsolved_custom_label r) eqn:E; try done;
        destruct Hlabel as [?|(?&?&?)]; done. }
  assert (default_tags r = r) as ->.
  { unfold default_tags, dict_has, get. by rewrite Htags, Hvt. }
  assert (coerce_pass_count r = r) as ->.
  { unfold coerce_pass_count, dict_has, get.
    destruct Hpass as [E|[E|[n E]]]; rewrite E; simpl; [done..|].
    by apply dict_set_same. }
  assert (migrate_assignee VNone r = r) as ->.
  { unfold migrate_assignee. apply dict_set_same. rewrite andb_false_r.
    rewrite clean_text_fixed; unfold get;
      destruct (dict_get k_assignee r) eqn:E; try done;
      destruct Hassignee as [?|(?&?&?)]; done. }
  f_equal. unfold clear_when_solved.
  destruct (truthy (get k_solved r)) eqn:Et; [|done].
  destruct (Hclr eq_refl) as [E1 E2].
  rewrite (dict_set_same _ _ _ E1). by apply dict_set_same.
Qed.

(** [normalize_record] raises only when [unsolved_stage] holds a list or a
    dict, which cannot be hashed. *)
Lemma normalize_record_total rec :
  (∀ l, dict_get k_unsolved_stage rec ≠ Some (VList l)) →
  (∀ e, dict_get k_unsolved_stage rec ≠ Some (VDict e)) →
  ∃ r, normalize_record rec = Ok r.
Proof.
  intros Hl He. rewrite normalize_record_blocks.
  destruct (check_stage_total (default_solved (drop_computed rec))) as [d' ->].
  - intros l. frames. apply Hl.
  - intros e. frames. apply He.
  - simpl. eauto.
Qed.

(** *** C1 *)

(** C1. [normalize_record] is idempotent: running it on its own output gives
    that output again, key order included; when it raises on the input, so
    does the composition. *)
Theorem normalize_record_idempotent rec :
  normalize_record rec ≫= normalize_record = normalize_record rec.
Proof.
  destruct (normalize_record rec) as [r|e] eqn:E; [|done].
  change (normalize_record r = Ok r).
  by eapply normalize_record_fixed, normalize_record_normalized.
Qed.

(** *** C10 *)

Lemma normalize_record_untouched rec r k :
  normalize_record rec = Ok r → k ∉ touched_keys → dict_get k r = dict_get k rec.
Proof.
  rewrite normalize_record_blocks.
  destruct (check_stage _) as [d|] eqn:Hd; simpl; [|done].
  intros [= <-] Hk.
  unfold touched_keys in Hk. rewrite !not_elem_of_cons in Hk.
  destruct Hk as (?&?&?&?&?&?&?&?&_).
  frames. rewrite (check_stage_get _ _ _ Hd) by done. by frames.
Qed.

Lemma normalize_record_keeps_key rec r k :
  normalize_record rec = Ok r → k ≠ k_owner → k ≠ k_has_solution →
  is_Some (dict_get k rec) → is_Some (dict_get k r).
Proof.
  intros Hr Ho Hh Hk.
  destruct (decide (k ∈ touched_keys)) as [Hin|Hout].
  - pose proof (normalize_record_normalized _ _ Hr) as Hn.
    unfold touched_keys in Hin. rewrite !elem_of_cons in Hin.
    destruct Hin as [->|[->|[->|[->|[->|[->|[->|[->|Hin]]]]]]]]; try done.
    + apply Hn.
    + destruct (nf_stage _ Hn) as [->|(?&->&_)]; eauto.
    + destruct (nf_label _ Hn) as [->|(?&->&_)]; eauto.
    + destruct (nf_tags _ Hn) as (?&->&_); eauto.
    + revert Hr Hk. rewrite normalize_record_blocks.
      destruct (check_stage _) as [d|] eqn:Hd; simpl; [|done].
      intros [= <-] Hk. frames. apply coerce_pass_count_keeps. frames.
      rewrite (check_stage_get _ _ _ Hd) by key_ne. by frames.
    + destruct (nf_assignee _ Hn) as [->|(?&->&_)]; eauto.
    + by apply elem_of_nil in Hin.
  - by rewrite (normalize_record_untouched _ _ _ Hr Hout).
Qed.

(** C10. [normalize_record] removes no key other than [owner] and
    [has_solution]: every other key of the input is a key of the output, and
    unless it is one of the six normalized fields it keeps its value; the
    legacy [status] field in particular is passed on unchanged. *)
Theorem normalize_record_frame rec r k :
  normalize_record rec = Ok r →
  (k ≠ k_owner → k ≠ k_has_solution →
   is_Some (dict_get k rec) → is_Some (dict_get k r))
  ∧ (k ∉ touched_keys → dict_get k r = dict_get k rec)
  ∧ dict_get k_status r = dict_get k_status rec.
Proof.
  intros Hr. split_and!.
  - by apply normalize_record_keeps_key.
  - by apply normalize_record_untouched.
  - apply normalize_record_untouched; [done|].
    unfold touched_keys. rewrite !not_elem_of_cons.
    split_and!; (key_ne || apply not_elem_of_nil).
Qed.

(** *** C5, for [normalize_record] *)

Lemma normalize_record_solved_clears rec r :
  normalize_record rec = Ok r →
  truthy (get k_solved r) = true →
  dict_get k_unsolved_stage r = Some VNone
  ∧ dict_get k_unsolved_custom_label r = Some VNone.
Proof. intros Hr. by apply normalize_record_normalized in Hr as []. Qed.


(** *** C5, for the handlers *)

Context `{!JsonFiles}.

Lemma dict_get_app_Some k v d e :
  dict_get k d = Some v → dict_get k (d ++ e) = Some v.
Proof.
  induction d as [|[k0 v0] d IH]; simpl; [done|]. by case_decide.
Qed.

Lemma solved_clears_flag b r : solved_clears r → solved_clears (dict_set k_has_solution b r).
Proof. unfold solved_clears, get. by dict_simp. Qed.

Lemma handler_data_solved item :
  dict_get k_solved (handler_data item) = Some (VBool (solved item)).
Proof. unfold handler_data. case_match; by dict_simp. Qed.

Lemma Problem_solved_clears id created updated item :
  solved_clears (Problem id created updated (handler_data item)).
Proof.
  unfold Problem, solved_clears. set (data := dict_set k_notes _ _).
  assert (dict_get k_solved data = Some (VBool (solved item))) as Hs.
  { unfold data. dict_simp. apply handler_data_solved. }
  assert (dict_get k_solved (_clear_unsolved_when_solved data)
          = Some (VBool (solved item))) as Hs'.
  { unfold _clear_unsolved_when_solved. case_match; by dict_simp. }
  unfold get at 1. rewrite (dict_get_app_Some _ _ _ _ Hs'). intros Ht.
  assert (truthy (get k_solved data) = true) as Ht'
    by (by rewrite (get_Some _ _ _ Hs)).
  unfold _clear_unsolved_when_solved. rewrite Ht'.
  split; apply dict_get_app_Some; by dict_simp.
Qed.

(** Unfolds the plumbing of [io]. *)
Ltac io_unfold :=
  unfold mbind, mret, io_mbind, io_mret, io_bind, io_ret, io_lift, io_raise in *.

Lemma create_problem_returns item uuid now st rec st' :
  create_problem item uuid now st = (Ok rec, st') →
  ∃ b, rec = dict_set k_has_solution (VBool b) (Problem uuid now now (handler_data item)).
Proof.
  unfold create_problem, _save, write_data_file, _solution_exists. io_unfold.
  generalize (Problem uuid now now (handler_data item)). intros rec0.
  destruct (_load st) as [[items|e] st1]; [|done].
  intros [= <- _]. eauto.
Qed.

Lemma update_problem_returns pid item now st rec st' :
  update_problem pid item now st = (Ok rec, st') →
  ∃ b r0 new, normalize_record r0 = Ok new ∧ rec = dict_set k_has_solution (VBool b) new.
Proof.
  unfold update_problem, _save, write_data_file, _solution_exists. io_unfold.
  destruct (_load st) as [[items|e] st1]; [|done].
  destruct (find_by_id pid items) as [[[i r]|]|e]; [|done..].
  destruct (normalize_record _) as [new|e] eqn:E; [|done].
  intros [= <- _]. eauto.
Qed.

(** C5. In every record that [normalize_record] returns, a truthy [solved]
    comes with [unsolved_stage] and [unsolved_custom_label] both present and
    null; the same holds of the record returned by [create_problem] and by
    [update_problem]. *)
Theorem solved_implies_cleared :
  (∀ rec r, normalize_record rec = Ok r → solved_clears r)
  ∧ (∀ item uuid now st rec st',
       create_problem item uuid now st = (Ok rec, st') → solved_clears rec)
  ∧ (∀ pid item now st rec st',
       update_problem pid item now st = (Ok rec, st') → solved_clears rec).
Proof.
  split_and!.
  - intros rec r Hr. exact (normalize_record_solved_clears _ _ Hr).
  - intros item uuid now st rec st' Hc.
    apply create_problem_returns in Hc as (b & ->).
    apply solved_clears_flag, Problem_solved_clears.
  - intros pid item now st rec st' Hu.
    apply update_problem_returns in Hu as (b & r0 & new & Hn & ->).
    apply solved_clears_flag. exact (normalize_record_solved_clears _ _ Hn).
Qed.


(** *** Loading and saving *)

Implicit Types (st : fs) (items out : list dict).

Lemma extract_legacy_key rec :
  extract_legacy legacy_keys rec =
  (λ key, (get key rec, dict_pop key rec)) <$> legacy_key rec.
Proof.
  unfold legacy_key. induction legacy_keys as [|key keys IH]; simpl; [done|].
  by destruct (dict_has key rec && truthy (get key rec)).
Qed.

Lemma legacy_key_Some rec key :
  legacy_key rec = Some key →
  key ∈ legacy_keys ∧ truthy (get key rec) = true.
Proof.
  unfold legacy_key. intros Hf. split.
  - apply list_elem_of_In. by apply find_some in Hf as [? _].
  - by apply find_some in Hf as [_ [_ ?]%andb_true_iff].
Qed.

Lemma legacy_key_untouched key :
  key ∈ legacy_keys → (key ∉ touched_keys) ∧ k_has_solution ≠ key.
Proof.
  unfold legacy_keys, touched_keys. rewrite !not_elem_of_cons.
  intros Hin. repeat (apply elem_of_cons in Hin as [->|Hin]);
    [..|by apply elem_of_nil in Hin];
    split_and!; (key_ne || apply not_elem_of_nil).
Qed.

(** The loop body on a record, in terms of [legacy_key]. *)
Lemma migrate_record_eq rec changed st :
  migrate_record rec changed st =
  match legacy_key rec with
  | Some key =>
    let rec' := dict_pop key rec in
    let st' :=
      if truthy (get k_id rec')
      then Fs (data_file st) (backup_file st)
             (<[py_str (get k_id rec') := py_str (get key rec)]> (solutions st))
      else st in
    match normalize_record (dict_pop k_has_solution rec') with
    | Ok r => (Ok (r, true), st')
    | Raise e => (Raise e, st')
    end
  | None =>
    match normalize_record (dict_pop k_has_solution rec) with
    | Ok r => (Ok (r, if negb (is_none (get k_has_solution rec)) then true else changed), st)
    | Raise e => (Raise e, st)
    end
  end.
Proof.
  unfold migrate_record. rewrite extract_legacy_key.
  destruct (legacy_key rec) as [key|] eqn:Hk; simpl.
  - apply legacy_key_Some in Hk as [Hin Ht]. rewrite Ht. simpl.
    unfold _write_solution. io_unfold.
    destruct (truthy (get k_id (dict_pop key rec))); simpl;
      destruct (normalize_record _); simpl; try done;
      by destruct (negb _).
  - io_unfold. by destruct (normalize_record _).
Qed.

(** The loop body touches neither the container nor its backup. *)
Lemma migrate_record_files rec changed st :
  data_file (migrate_record rec changed st).2 = data_file st
  ∧ backup_file (migrate_record rec changed st).2 = backup_file st.
Proof.
  rewrite migrate_record_eq. destruct (legacy_key rec); simpl;
    repeat case_match; done.
Qed.

Lemma migrate_all_files items changed st :
  data_file (migrate_all items changed st).2 = data_file st
  ∧ backup_file (migrate_all items changed st).2 = backup_file st.
Proof.
  revert changed st. induction items as [|rec items IH]; intros changed st; [done|].
  simpl. io_unfold.
  pose proof (migrate_record_files rec changed st) as [Hd Hb].
  destruct (migrate_record rec changed st) as [[[r c]|e] st1]; simpl in *; [|done].
  pose proof (IH c st1) as [Hd' Hb'].
  destruct (migrate_all items c st1) as [[[rs c']|e] st2]; simpl in *;
    split; congruence.
Qed.

Lemma attach_flags_state items st : (attach_flags items st).2 = st.
Proof.
  revert st. induction items as [|rec items IH]; intros st; [done|].
  simpl. io_unfold.
  assert (∃ r, attach_flag rec st = (Ok r, st)) as [r ->].
  { unfold attach_flag, _solution_exists. io_unfold. case_match; eauto. }
  specialize (IH st). by destruct (attach_flags items st) as [[|] ?].
Qed.

Lemma attach_flags_eq items st :
  attach_flags items st = (Ok (flag (solutions st) <$> items), st).
Proof.
  induction items as [|rec items IH]; [done|].
  simpl. io_unfold.
  assert (attach_flag rec st = (Ok (flag (solutions st) rec), st)) as ->.
  { unfold attach_flag, flag, _solution_exists. io_unfold. by case_match. }
  by rewrite IH.
Qed.


Lemma migrate_record_result rec changed st r c st' :
  migrate_record rec changed st = (Ok (r, c), st') →
  normalize_record (stripped rec) = Ok r ∧ c = changed || sets_changed rec.
Proof.
  rewrite migrate_record_eq. unfold stripped, sets_changed.
  destruct (legacy_key rec) as [key|]; simpl.
  - destruct (normalize_record _); [|done]. intros [= <- <- _].
    by rewrite orb_true_r.
  - destruct (normalize_record _); [|done]. intros [= <- <- _].
    split; [done|]. destruct (is_none _), changed; done.
Qed.

Lemma migrate_all_result items changed st rs c st' :
  migrate_all items changed st = (Ok (rs, c), st') →
  Forall2 (λ rec r, normalize_record (stripped rec) = Ok r) items rs
  ∧ c = changed || existsb sets_changed items.
Proof.
  revert changed st rs c st'.
  induction items as [|rec items IH]; intros changed st rs c st'; simpl.
  - io_unfold. intros [= <- <- _]. by rewrite orb_false_r.
  - io_unfold.
    destruct (migrate_record rec changed st) as [[[r c1]|e] st1] eqn:E1; [|done].
    destruct (migrate_all items c1 st1) as [[[rs' c2]|e] st2] eqn:E2; [|done].
    intros [= <- <- _].
    apply migrate_record_result in E1 as [Hr ->].
    apply IH in E2 as [Hrs ->].
    split; [by constructor|]. by rewrite orb_assoc.
Qed.

(** A load that pops no legacy solution writes no side-file. *)
Lemma migrate_all_state items changed st :
  existsb sets_changed items = false → (migrate_all items changed st).2 = st.
Proof.
  revert changed st. induction items as [|rec items IH]; intros changed st; [done|].
  simpl. intros [Hrec Hitems]%orb_false_iff. io_unfold.
  unfold sets_changed in Hrec. apply orb_false_iff in Hrec as [Hk _].
  apply bool_decide_eq_false in Hk.
  pose proof (migrate_record_eq rec changed st) as E.
  destruct (legacy_key rec) as [key|]; [by destruct Hk|].
  rewrite E. destruct (normalize_record _); simpl; [|done].
  specialize (IH (if negb (is_none (get k_has_solution rec)) then true else changed) st Hitems).
  by destruct (migrate_all items _ st) as [[[]|] ?].
Qed.

Lemma dict_pop_set k v d : dict_pop k (dict_set k v d) = dict_pop k d.
Proof.
  induction d as [|[k0 v0] d IH]; simpl.
  - by case_decide.
  - repeat (case_decide; simpl; subst); try done. by rewrite IH.
Qed.

Lemma sanitize_flag sols items : sanitize (flag sols <$> items) = sanitize items.
Proof.
  unfold sanitize. rewrite <- list_fmap_compose. apply list_fmap_ext.
  intros i rec _. simpl. unfold flag. apply dict_pop_set.
Qed.

Lemma sanitize_normalized items : Forall normalized items → sanitize items = items.
Proof.
  unfold sanitize. induction 1 as [|r rs Hr _ IH]; simpl; [done|].
  by rewrite IH, (dict_pop_absent _ _ (nf_has_solution _ Hr)).
Qed.

(** The [try] of [_load], by what the container holds: text that decodes,
    text on which [json.loads] raises [JSONDecodeError], or anything else. *)
Lemma read_container_eq st :
  read_container st
  = match read_text (data_file st) with
    | Raise e => (Raise e, st)
    | Ok raw =>
      match loads raw with
      | Ok items => (Ok items, st)
      | Raise JSONDecodeError =>
        (Ok [], Fs (write_text empty_container) (Some (write_text raw)) (solutions st))
      | Raise e => (Raise e, st)
      end
    end.
Proof.
  unfold read_container, except_json, read_data_file, write_backup_file,
    write_data_file.
  io_unfold.
  destruct (read_text (data_file st)) as [raw|e] eqn:Hr.
  - destruct (loads raw) as [items|[]]; try done. by rewrite Hr.
  - destruct e; try done. by rewrite Hr.
Qed.

Lemma read_json_Ok (f : file) items :
  read_json f = Ok items ↔ ∃ raw, read_text f = Ok raw ∧ loads raw = Ok items.
Proof.
  unfold read_json, mbind, result_bind, rbind.
  destruct (read_text f) as [raw|e]; [|split; [done|by intros (? & ? & _)]].
  split; [by exists raw|]. by intros (? & [= <-] & ?).
Qed.

Lemma read_container_decoded st items :
  read_json (data_file st) = Ok items → read_container st = (Ok items, st).
Proof.
  intros (raw & Hr & Hl)%read_json_Ok. by rewrite read_container_eq, Hr, Hl.
Qed.

(** What a load of a well-formed container does. *)
Lemma load_decoded st items out st' :
  read_json (data_file st) = Ok items →
  _load st = (Ok out, st') →
  ∃ rs st1,
    migrate_all items false st = (Ok (rs, existsb sets_changed items), st1)
    ∧ out = flag (solutions st1) <$> rs
    ∧ st' = if existsb sets_changed items
            then Fs (write_text (dumps (sanitize rs))) (backup_file st1) (solutions st1)
            else st1.
Proof.
  intros Hl. unfold _load, load_locked, write_data_file. io_unfold.
  rewrite (read_container_decoded _ _ Hl).
  destruct (migrate_all items false st) as [[[rs c]|e] st1] eqn:E; [|done].
  pose proof (migrate_all_result _ _ _ _ _ _ E) as [_ Hc]. simpl in Hc. subst c.
  destruct (existsb sets_changed items); rewrite attach_flags_eq;
    intros [= <- <-]; by exists rs, st1.
Qed.

Lemma legacy_key_ext d1 d2 :
  (∀ key, key ∈ legacy_keys → dict_get key d1 = dict_get key d2) →
  legacy_key d1 = legacy_key d2.
Proof.
  unfold legacy_key. generalize legacy_keys. intros keys Hd.
  induction keys as [|key keys IH]; simpl; [done|].
  unfold dict_has, get. rewrite (Hd key) by apply list_elem_of_here.
  unfold dict_has, get in IH. rewrite IH; [done|].
  intros k Hk. apply Hd. by apply list_elem_of_further.
Qed.

Lemma legacy_key_flag sols r : legacy_key (flag sols r) = legacy_key r.
Proof.
  apply legacy_key_ext. intros key [_ Hk]%legacy_key_untouched.
  unfold flag. by rewrite dict_get_set_ne.
Qed.

(** Records in normal form without legacy solution go through the loop as
    they are, and [changed] stays as it was. *)
Lemma migrate_all_fixed rs changed st :
  Forall normalized rs → Forall (λ r, legacy_key r = None) rs →
  migrate_all rs changed st = (Ok (rs, changed), st).
Proof.
  intros Hn Hk. revert changed. induction Hn as [|r rs Hr _ IH]; intros changed; [done|].
  apply Forall_cons in Hk as [Hk Hks]. simpl. io_unfold.
  rewrite migrate_record_eq, Hk, (get_None _ _ (nf_has_solution _ Hr)). simpl.
  rewrite (dict_pop_absent _ _ (nf_has_solution _ Hr)), (normalize_record_fixed _ Hr).
  by rewrite (IH Hks).
Qed.


Lemma migrate_all_normalized items rs :
  Forall2 (λ rec r, normalize_record (stripped rec) = Ok r) items rs →
  Forall normalized rs.
Proof.
  induction 1 as [|rec r items rs Hr _ IH]; constructor; [|done].
  by apply normalize_record_normalized in Hr.
Qed.

Lemma existsb_lookup {A} (f : A → bool) (l : list A) i x :
  l !! i = Some x → f x = true → existsb f l = true.
Proof.
  intros Hl Hx. apply existsb_exists. exists x. split; [|done].
  apply list_elem_of_In. by eapply list_elem_of_lookup_2.
Qed.

Lemma replace_from_here (old new : str) c r :
  replace_from old new 0 (c :: r) =
  if is_prefix old (c :: r)
  then new ++ replace_from old new (length old - 1) r
  else c :: replace_from old new 0 r.
Proof. reflexivity. Qed.

Lemma is_prefix_crlf (s : str) :
  is_prefix [13; 10] s = true → ∃ r, s = 13 :: 10 :: r.
Proof.
  destruct s as [|c [|c' r]]; cbn [is_prefix]; try done.
  - by rewrite andb_false_r.
  - intros [->%N.eqb_eq [->%N.eqb_eq _]%andb_true_iff]%andb_true_iff. eauto.
Qed.

(** [replace("\r\n", "\n")] keeps a string blank or not blank. *)
Lemma replace_crlf_blank (s : str) :
  forallb isspace (replace [13; 10] [10] s) = forallb isspace s.
Proof.
  unfold replace.
  assert (forallb isspace (replace_from [13; 10] [10] 0 s) = forallb isspace s
          ∧ forallb isspace (replace_from [13; 10] [10] 1 s) = forallb isspace (tail s))
    as [? _]; [|done].
  induction s as [|c r [IH0 IH1]]; [done|]. split; [|exact IH0].
  rewrite replace_from_here.
  destruct (is_prefix [13; 10] (c :: r)) eqn:E.
  - apply is_prefix_crlf in E as [r' [= -> ->]].
    rewrite forallb_app. cbn [length Nat.sub]. by rewrite IH1.
  - change (forallb isspace (c :: ?l)) with (isspace c && forallb isspace l).
    by rewrite IH0.
Qed.

(** What is written is read back: a container written from [json.dumps]
    decodes to the records dumped, and ["[]"] to the empty list. *)
Hypothesis read_written : ∀ l, read_json (write_text (dumps l)) = Ok l.
Hypothesis read_empty : read_json (write_text empty_container) = Ok [].

(** *** C2 *)

(** C2, amended. A load rewrites the container exactly when the loop set
    [changed]: a truthy legacy solution key was popped or a non-null
    [has_solution] was dropped.  The file then holds the returned records
    without [has_solution], and if none of them still holds a truthy legacy
    solution key, loading again returns the same records and leaves every
    file as it is.  When [changed] was not set, nothing is written, whatever
    [normalize_record] did to the records. *)
Theorem load_rewrites_when_changed st items out st' :
  read_json (data_file st) = Ok items →
  _load st = (Ok out, st') →
  if existsb sets_changed items
  then data_file st' = write_text (dumps (sanitize out))
       ∧ ((∀ r, r ∈ out → legacy_key r = None) → _load st' = (Ok out, st'))
  else st' = st.
Proof.
  intros Hl Hload.
  destruct (load_decoded _ _ _ _ Hl Hload) as (rs & st1 & Hm & -> & ->).
  pose proof (migrate_all_result _ _ _ _ _ _ Hm) as [Hrs _].
  apply migrate_all_normalized in Hrs.
  destruct (existsb sets_changed items) eqn:Hc.
  - rewrite sanitize_flag. split; [done|]. intros Hk.
    rewrite (sanitize_normalized _ Hrs).
    unfold _load, load_locked, write_data_file. io_unfold.
    rewrite (read_container_decoded _ rs) by apply read_written.
    rewrite migrate_all_fixed; [|done|].
    + by rewrite attach_flags_eq.
    + apply Forall_forall. intros r Hr. rewrite <- (legacy_key_flag (solutions st1)).
      apply Hk. by apply list_elem_of_fmap_2.
  - pose proof (migrate_all_state items false st Hc) as Hst. by rewrite Hm in Hst.
Qed.

(** *** C6 *)

Lemma load_raises st e :
  read_container st = (Raise e, st) → _load st = (Raise e, st).
Proof. unfold _load, load_locked. io_unfold. by intros ->. Qed.


(** *** C9 *)

(** C9. A record of the container that holds a truthy value under a legacy
    solution key and has no truthy [id]: the loop body writes no file for
    it, the container is rewritten, and the record written in its place has
    lost the key. *)
Theorem legacy_solution_without_id_discarded st items i rec key out st' :
  read_json (data_file st) = Ok items →
  items !! i = Some rec →
  legacy_key rec = Some key →
  truthy (get k_id rec) = false →
  _load st = (Ok out, st') →
  (∀ changed st0, (migrate_record rec changed st0).2 = st0)
  ∧ ∃ written r,
      data_file st' = write_text (dumps written)
      ∧ written !! i = Some r
      ∧ normalize_record (dict_pop k_has_solution (dict_pop key rec)) = Ok r
      ∧ dict_get key r = None.
Proof.
  intros Hl Hi Hk Hid Hload.
  pose proof (legacy_key_Some _ _ Hk) as [Hin _].
  pose proof (legacy_key_untouched _ Hin) as [Hout Hne].
  split.
  - intros changed st0. rewrite migrate_record_eq, Hk. simpl.
    assert (get k_id (dict_pop key rec) = get k_id rec) as ->.
    { unfold get. rewrite dict_get_pop_ne; [done|].
      intros ->. unfold legacy_keys in Hin. rewrite !elem_of_cons in Hin.
      destruct Hin as [E|[E|[E|E%elem_of_nil]]]; [| | |done];
        vm_compute in E; discriminate E. }
    rewrite Hid. by destruct (normalize_record _).
  - destruct (load_decoded _ _ _ _ Hl Hload) as (rs & st1 & Hm & -> & ->).
    assert (existsb sets_changed items = true) as ->.
    { apply (existsb_lookup _ _ _ _ Hi). unfold sets_changed. rewrite Hk.
      rewrite bool_decide_eq_true_2; [done|by eexists]. }
    pose proof (migrate_all_result _ _ _ _ _ _ Hm) as [Hrs _].
    pose proof (migrate_all_normalized _ _ Hrs) as Hn.
    destruct (Forall2_lookup_l _ _ _ _ _ Hrs Hi) as (r & Hr & Hnr).
    exists rs, r. unfold stripped in Hnr. rewrite Hk in Hnr.
    split_and!; [by rewrite (sanitize_normalized _ Hn)|done|done|].
    rewrite (normalize_record_untouched _ _ _ Hnr Hout).
    rewrite dict_get_pop_ne by done. apply dict_get_pop_eq.
Qed.


(** *** C8 *)


(** *** C3 *)

Lemma contest_entries_length probs range es :
  contest_entries probs range = Ok es → length es = length range.
Proof.
  revert es. induction range as [|i range IH]; intros es; simpl.
  - by intros [= <-].
  - destruct (contest_entry probs i); simpl; [|done].
    destruct (contest_entries probs range) as [es'|]; simpl; [|done].
    intros [= <-]. simpl. by rewrite (IH es').
Qed.

Lemma contest_entries_lookup probs range es j i :
  contest_entries probs range = Ok es → range !! j = Some i →
  ∃ x, es !! j = Some x ∧ contest_entry probs i = Ok x.
Proof.
  revert es j. induction range as [|i0 range IH]; intros es j; simpl; [done|].
  destruct (contest_entry probs i0) as [x0|] eqn:E0; simpl; [|done].
  destruct (contest_entries probs range) as [es'|]; simpl; [|done].
  intros [= <-]. destruct j as [|j]; simpl.
  - intros [= <-]. eauto.
  - by apply IH.
Qed.

Lemma clamp_total_range v : (1 ≤ clamp_total v ≤ 15)%Z.
Proof. unfold clamp_total. destruct (py_int _); lia. Qed.

(** The letter of an entry: the one found under [letter] in the input entry
    when that is an object with this key, else the letter of the position. *)
Lemma contest_entry_letter probs i d :
  contest_entry probs i = Ok (VDict d) →
  ∃ c, LETTERS !! i = Some c
       ∧ dict_get k_letter d
         = Some (match py_index probs i with
                 | Ok (VDict e) => get_default k_letter (VStr [c]) e
                 | _ => VStr [c]
                 end).
Proof.
  unfold contest_entry, letter_at.
  destruct (LETTERS !! i) as [c|] eqn:Ec; simpl; [|done].
  destruct (py_len probs) as [n|] eqn:En; simpl; [|done].
  intros Hd. exists c. split; [done|].
  case_bool_decide as Hi; simpl in Hd.
  - destruct (py_index probs i) as [p|] eqn:Ep; simpl in Hd; [|done].
    destruct p; injection Hd as <-; try done.
    case_match; by dict_simp.
  - injection Hd as <-.
    destruct probs; simpl in En, Hi |- *; try done; injection En as <-.
    + by rewrite (lookup_ge_None_2 s i) by lia.
    + by rewrite (lookup_ge_None_2 l i) by lia.
Qed.

Lemma contest_entry_dict probs i x :
  contest_entry probs i = Ok x → ∃ d, x = VDict d.
Proof.
  unfold contest_entry.
  destruct (letter_at i); simpl; [|done].
  destruct (py_len probs); simpl; [|done].
  case_bool_decide; [|intros [= <-]; eauto].
  destruct (py_index probs i) as [[]|]; simpl; try done; intros [= <-]; eauto.
Qed.

(** C3, amended. In a record returned by [normalize_contest],
    [total_problems] is an integer between 1 and 15 and [problems] is a list
    of that many objects; the entry at position [i] carries, under [letter],
    the value that entry [i] of the input has under that key when it is an
    object with this key, and the [i]-th capital letter otherwise. *)
Theorem normalize_contest_problems rec r :
  normalize_contest rec = Ok r →
  ∃ total es,
    dict_get k_total_problems r = Some (VInt total)
    ∧ dict_get k_problems r = Some (VList es)
    ∧ (1 ≤ total ≤ 15)%Z
    ∧ Z.of_nat (length es) = total
    ∧ ∀ i, (i < length es)%nat →
        ∃ d c,
          es !! i = Some (VDict d)
          ∧ LETTERS !! i = Some c
          ∧ dict_get k_letter d
            = Some (match py_index (py_or (get k_problems rec) (VList [])) i with
                    | Ok (VDict e) => get_default k_letter (VStr [c]) e
                    | _ => VStr [c]
                    end).
Proof.
  unfold normalize_contest.
  set (total := clamp_total _). set (probs := py_or _ _).
  assert (probs = py_or (get k_problems rec) (VList [])) as Hprobs.
  { unfold probs, get. by dict_simp. }
  rewrite Hprobs. clear probs Hprobs. set (probs := py_or _ _).
  destruct (contest_entries probs _) as [es|] eqn:E; simpl; [|done].
  intros [= <-]. exists total, es.
  pose proof (clamp_total_range (get k_total_problems rec)) as Hrange.
  pose proof (contest_entries_length _ _ _ E) as Hlen. rewrite length_seq in Hlen.
  split_and!; [by dict_simp|by dict_simp|apply Hrange..|lia|].
  intros i Hi.
  destruct (contest_entries_lookup _ _ _ i i E) as (x & Hx & Hentry).
  { apply lookup_seq. lia. }
  destruct (contest_entry_dict _ _ _ Hentry) as [d ->].
  destruct (contest_entry_letter _ _ _ Hentry) as (c & Hc & Hl).
  by exists d, c.
Qed.


(** ** Further properties of [normalize_record] *)

Lemma stage_before_check rec :
  dict_get k_unsolved_stage (default_solved (drop_computed rec))
  = dict_get k_unsolved_stage rec.
Proof. by frames. Qed.

Lemma check_stage_raises d :
  match dict_get k_unsolved_stage d with
  | Some (VList _) | Some (VDict _) => check_stage d = Raise TypeError
  | _ => ∃ d', check_stage d = Ok d'
  end.
Proof.
  unfold check_stage, dict_has, get.
  destruct (dict_get k_unsolved_stage d) as [[]|]; simpl; eauto.
Qed.

Lemma normalize_record_outcome rec :
  match dict_get k_unsolved_stage rec with
  | Some (VList _) | Some (VDict _) => normalize_record rec = Raise TypeError
  | _ => ∃ r, normalize_record rec = Ok r
  end.
Proof.
  rewrite normalize_record_blocks.
  pose proof (check_stage_raises (default_solved (drop_computed rec))) as Hc.
  rewrite stage_before_check in Hc.
  destruct (dict_get k_unsolved_stage rec) as [[]|];
    first [ by rewrite Hc | destruct Hc as [d' ->]; simpl; eauto ].
Qed.

(** X1. [normalize_record] raises exactly when [unsolved_stage] holds a list
    or an object, which the membership test cannot hash; the exception is
    [TypeError].  On every other record it returns. *)
Theorem normalize_record_raises_iff rec :
  match dict_get k_unsolved_stage rec with
  | Some (VList _) | Some (VDict _) => normalize_record rec = Raise TypeError
  | _ => ∃ r, normalize_record rec = Ok r
  end.
Proof. apply normalize_record_outcome. Qed.

(** X2. Every record that [normalize_record] returns has the current shape:
    no [owner], no [has_solution]; [solved] present; [unsolved_stage] null
    or one of the three stages; [unsolved_custom_label] and [assignee] null
    or a non-empty stripped string; [tags] present and not null;
    [pass_count] absent, null or an integer. *)
Theorem normalize_record_schema rec r :
  normalize_record rec = Ok r → normalized r.
Proof. apply normalize_record_normalized. Qed.

(** X3. A [solved] that the input has is passed on as it is, whatever its
    type; a missing one becomes [True] exactly when the legacy [status],
    as text and in lower case, is ['done']. *)
Theorem normalize_record_solved rec r :
  normalize_record rec = Ok r →
  dict_get k_solved r
  = Some (match dict_get k_solved rec with
          | Some v => v
          | None =>
            VBool (str_eqb (lower (py_str (py_or (get k_status rec) (VStr [])))) s_done)
          end).
Proof.
  rewrite normalize_record_blocks.
  destruct (check_stage _) as [d|] eqn:Hd; simpl; [|done].
  intros [= <-]. frames. rewrite (check_stage_get _ _ _ Hd) by key_ne.
  unfold default_solved, dict_has, get. frames.
  destruct (dict_get k_solved rec) as [v|] eqn:E.
  - by frames.
  - by dict_simp.
Qed.

(** X4. [assignee] is taken from the deprecated [owner] only when the input
    has no [assignee] or a null one and [owner] is truthy; either value is
    turned into text and stripped, and a blank one becomes null. *)
Theorem normalize_record_assignee rec r :
  normalize_record rec = Ok r →
  dict_get k_assignee r
  = Some (clean_text
            (if is_none (get k_assignee rec) && truthy (get k_owner rec)
             then get k_owner rec else get k_assignee rec)).
Proof.
  rewrite normalize_record_blocks.
  destruct (check_stage _) as [d|] eqn:Hd; simpl; [|done].
  intros [= <-]. frames. unfold migrate_assignee. dict_simp.
  assert (get k_owner (dict_pop k_has_solution rec) = get k_owner rec) as ->
    by (unfold get; by dict_simp).
  assert (get k_assignee (coerce_pass_count (default_tags (clean_label d)))
          = get k_assignee rec) as ->; [|done].
  unfold get. frames. rewrite (check_stage_get _ _ _ Hd) by key_ne. by frames.
Qed.

(** X5. [pass_count] never makes [normalize_record] fail: a missing one
    stays missing, a null one stays null, any other value is replaced by
    [int] of it, or by null when [int] raises. *)
Theorem normalize_record_pass_count rec r :
  normalize_record rec = Ok r →
  dict_get k_pass_count r
  = match dict_get k_pass_count rec with
    | None => None
    | Some v =>
      if is_none v then Some VNone
      else Some (match py_int v with Some n => VInt n | None => VNone end)
    end.
Proof.
  rewrite normalize_record_blocks.
  destruct (check_stage _) as [d|] eqn:Hd; simpl; [|done].
  intros [= <-]. frames.
  assert (dict_get k_pass_count (default_tags (clean_label d))
          = dict_get k_pass_count rec) as E.
  { frames. rewrite (check_stage_get _ _ _ Hd) by key_ne. by frames. }
  unfold coerce_pass_count, dict_has, get. rewrite E.
  destruct (dict_get k_pass_count rec) as [v|]; simpl; [|done].
  destruct (is_none v) eqn:Ev; simpl.
  - rewrite E. by destruct v.
  - destruct (py_int v); by dict_simp.
Qed.


(** ** Further properties of [normalize_contest] *)

Lemma entry_merge letter e :
  dict_update (base_entry letter)
    (map (λ kv, (kv.1, get_default kv.1 kv.2 e)) (base_entry letter))
  = four (get_default k_letter (VStr letter) e)
         (get_default k_pass_count (VInt 0) e)
         (get_default k_attempt_count (VInt 0) e)
         (get_default k_my_status (VStr s_unsubmitted) e).
Proof. reflexivity. Qed.

Lemma count_or_zero_int v : ∃ n, count_or_zero v = VInt n.
Proof. unfold count_or_zero. destruct (py_int _); eauto. Qed.

Lemma count_or_zero_fixed n : count_or_zero (VInt n) = VInt n.
Proof.
  unfold count_or_zero, py_or. simpl.
  destruct (n =? 0)%Z eqn:E; simpl; [|done]. by apply Z.eqb_eq in E as ->.
Qed.

Lemma not_a_status_false v : not_a_status v = false → ∃ s, v = VStr s.
Proof. destruct v; try done. eauto. Qed.

(** What the loop does to an entry that is an object. *)
Lemma entry_of_object letter vp va vs :
  let d := four letter vp va vs in
  let d := dict_set k_pass_count (count_or_zero (get k_pass_count d)) d in
  let d := dict_set k_attempt_count (count_or_zero (get k_attempt_count d)) d in
  (if not_a_status (get k_my_status d)
   then dict_set k_my_status (VStr s_unsubmitted) d else d)
  = four letter (count_or_zero vp) (count_or_zero va)
      (if not_a_status vs then VStr s_unsubmitted else vs).
Proof.
  cbv zeta.
  assert (∀ x, get k_pass_count (four letter x va vs) = x) as -> by reflexivity.
  assert (∀ x, dict_set k_pass_count x (four letter vp va vs) = four letter x va vs)
    as -> by reflexivity.
  assert (∀ p x, get k_attempt_count (four letter p x vs) = x) as -> by reflexivity.
  assert (∀ p x, dict_set k_attempt_count x (four letter p va vs) = four letter p x vs)
    as -> by reflexivity.
  assert (∀ p a x, get k_my_status (four letter p a x) = x) as -> by reflexivity.
  destruct (not_a_status vs); reflexivity.
Qed.

Lemma contest_entry_eq probs i :
  contest_entry probs i =
  match letter_at i with
  | Raise e => Raise e
  | Ok letter =>
    match py_len probs with
    | Raise e => Raise e
    | Ok n =>
      if bool_decide (i < n)%nat then
        match py_index probs i with
        | Raise e => Raise e
        | Ok (VDict e) => Ok (VDict (merged letter e))
        | Ok _ => Ok (VDict (base_entry letter))
        end
      else Ok (VDict (base_entry letter))
    end
  end.
Proof.
  unfold contest_entry, mbind, result_bind, rbind.
  destruct (letter_at i) as [letter|]; [|done].
  destruct (py_len probs); [|done].
  case_bool_decide; [|done].
  destruct (py_index probs i) as [[]|]; try done.
  rewrite entry_merge.
  pose proof (entry_of_object (get_default k_letter (VStr letter) d)
                (get_default k_pass_count (VInt 0) d)
                (get_default k_attempt_count (VInt 0) d)
                (get_default k_my_status (VStr s_unsubmitted) d)) as E.
  cbv zeta in E. by rewrite E.
Qed.

Lemma merged_ok letter e : entry_ok (VDict (merged letter e)).
Proof.
  unfold merged.
  destruct (count_or_zero_int (get_default k_pass_count (VInt 0) e)) as [np ->].
  destruct (count_or_zero_int (get_default k_attempt_count (VInt 0) e)) as [na ->].
  destruct (not_a_status (get_default k_my_status (VStr s_unsubmitted) e)) eqn:Es.
  - by eexists _, np, na, s_unsubmitted.
  - destruct (not_a_status_false _ Es) as [st Hst]. rewrite Hst in Es |- *.
    by eexists _, np, na, st.
Qed.

Lemma contest_entry_ok probs i x : contest_entry probs i = Ok x → entry_ok x.
Proof.
  assert (∀ letter, entry_ok (VDict (base_entry letter))) as Hbase.
  { intros letter. by exists (VStr letter), 0%Z, 0%Z, s_unsubmitted. }
  rewrite contest_entry_eq.
  destruct (letter_at i) as [letter|]; [|done].
  destruct (py_len probs); [|done].
  case_bool_decide; [|by intros [= <-]].
  destruct (py_index probs i) as [[]|]; try done; intros [= <-]; try apply Hbase.
  apply merged_ok.
Qed.

(** An entry in that form is left as it is by a further pass. *)
Lemma contest_entry_fixed (es : list pyval) i x :
  es !! i = Some x → entry_ok x → (i < 26)%nat →
  contest_entry (VList es) i = Ok x.
Proof.
  intros Hi (letter & np & na & st & -> & Hst) H26.
  rewrite contest_entry_eq. unfold letter_at.
  destruct (LETTERS !! i) as [c|] eqn:Ec.
  - cbn [py_len py_index].
    rewrite bool_decide_eq_true_2 by (by eapply lookup_lt_Some).
    rewrite Hi. do 2 f_equal. unfold merged.
    assert (∀ v, get_default k_letter v
                   [(k_letter, letter); (k_pass_count, VInt np);
                    (k_attempt_count, VInt na); (k_my_status, VStr st)] = letter)
      as -> by reflexivity.
    assert (∀ v, get_default k_pass_count v
                   [(k_letter, letter); (k_pass_count, VInt np);
                    (k_attempt_count, VInt na); (k_my_status, VStr st)] = VInt np)
      as -> by reflexivity.
    assert (∀ v, get_default k_attempt_count v
                   [(k_letter, letter); (k_pass_count, VInt np);
                    (k_attempt_count, VInt na); (k_my_status, VStr st)] = VInt na)
      as -> by reflexivity.
    assert (∀ v, get_default k_my_status v
                   [(k_letter, letter); (k_pass_count, VInt np);
                    (k_attempt_count, VInt na); (k_my_status, VStr st)] = VStr st)
      as -> by reflexivity.
    by rewrite !count_or_zero_fixed, Hst.
  - apply lookup_ge_None_1 in Ec. change (length LETTERS) with 26%nat in Ec. lia.
Qed.

Lemma contest_entries_drop probs (es : list pyval) :
  (∀ i x, es !! i = Some x → contest_entry probs i = Ok x) →
  ∀ n a, (a + n)%nat = length es →
  contest_entries probs (seq a n) = Ok (drop a es).
Proof.
  intros Hes n. induction n as [|n IH]; intros a Ha; simpl.
  - rewrite drop_ge by lia. done.
  - destruct (lookup_lt_is_Some_2 es a) as [x Hx]; [lia|].
    rewrite (Hes _ _ Hx). simpl. rewrite (IH (S a)) by lia. simpl.
    by rewrite (drop_S _ _ _ Hx).
Qed.

Lemma normalize_contest_shape rec r :
  normalize_contest rec = Ok r →
  ∃ total es,
    dict_get k_total_problems r = Some (VInt total)
    ∧ dict_get k_problems r = Some (VList es)
    ∧ (1 ≤ total ≤ 15)%Z
    ∧ Z.of_nat (length es) = total
    ∧ Forall entry_ok es.
Proof.
  unfold normalize_contest.
  destruct (contest_entries _ _) as [es|] eqn:E; simpl; [|done].
  intros [= <-]. eexists _, es.
  pose proof (clamp_total_range (get k_total_problems rec)) as Hrange.
  pose proof (contest_entries_length _ _ _ E) as Hlen. rewrite length_seq in Hlen.
  split_and!; [by dict_simp|by dict_simp|apply Hrange..|lia|].
  apply Forall_lookup. intros i x Hx.
  destruct (contest_entries_lookup _ _ _ i i E) as (x' & Hx' & Hentry).
  { apply lookup_seq. split; [done|]. apply lookup_lt_Some in Hx. lia. }
  rewrite Hx in Hx'. injection Hx' as <-. by eapply contest_entry_ok.
Qed.

(** X6. [normalize_contest] is idempotent: a second pass returns the record
    that the first pass returned. *)
Theorem normalize_contest_idempotent rec r :
  normalize_contest rec = Ok r → normalize_contest r = Ok r.
Proof.
  intros Hr.
  destruct (normalize_contest_shape _ _ Hr)
    as (total & es & Htotal & Hes & Hrange & Hlen & Hok).
  unfold normalize_contest.
  assert (clamp_total (get k_total_problems r) = total) as ->.
  { rewrite (get_Some _ _ _ Htotal). unfold clamp_total, py_or. simpl.
    destruct (total =? 0)%Z eqn:E; simpl; [apply Z.eqb_eq in E|]; lia. }
  rewrite (dict_set_same _ _ _ Htotal).
  assert (py_or (get k_problems r) (VList []) = VList es) as ->.
  { rewrite (get_Some _ _ _ Hes). unfold py_or. simpl.
    destruct es; [simpl in Hlen; lia|done]. }
  rewrite (contest_entries_drop (VList es) es).
  - unfold mbind, result_bind, rbind. rewrite drop_0.
    by rewrite (dict_set_same _ _ _ Hes).
  - intros i x Hx. apply contest_entry_fixed; [done| |].
    + by eapply Forall_lookup_1.
    + apply lookup_lt_Some in Hx. lia.
  - lia.
Qed.

(** X7. In a record returned by [normalize_contest] every entry of
    [problems] is an object with exactly the keys [letter], [pass_count],
    [attempt_count] and [my_status], in this order; both counts are
    integers and [my_status] is one of the three states. *)
Theorem normalize_contest_entries rec r :
  normalize_contest rec = Ok r →
  ∃ es, dict_get k_problems r = Some (VList es) ∧ Forall entry_ok es.
Proof.
  intros Hr.
  destruct (normalize_contest_shape _ _ Hr) as (total & es & _ & Hes & _ & _ & Hok).
  by exists es.
Qed.


Lemma contest_entries_total probs (range : list nat) :
  Forall (λ i, (i < 26)%nat) range →
  (∃ l, probs = VList l) ∨ (∃ t, probs = VStr t) →
  ∃ es, contest_entries probs range = Ok es.
Proof.
  intros Hrange Hprobs. induction Hrange as [|i range Hi _ [es IH]]; simpl; [eauto|].
  assert (∃ x, contest_entry probs i = Ok x) as [x ->].
  { rewrite contest_entry_eq. unfold letter_at.
    destruct (LETTERS !! i) as [c|] eqn:Ec.
    - destruct Hprobs as [[l ->]|[t ->]]; cbn [py_len py_index];
        case_bool_decide as Hlt; eauto.
      + destruct (lookup_lt_is_Some_2 l i Hlt) as [y ->]. destruct y; eauto.
      + destruct (lookup_lt_is_Some_2 t i Hlt) as [y ->]. eauto.
    - apply lookup_ge_None_1 in Ec. change (length LETTERS) with 26%nat in Ec. lia. }
  rewrite IH. simpl. eauto.
Qed.

Lemma contest_entries_first_raises probs (total : Z) e :
  (1 ≤ total)%Z → contest_entry probs 0 = Raise e →
  contest_entries probs (seq 0 (Z.to_nat total)) = Raise e.
Proof.
  intros Htotal He. destruct (Z.to_nat total) as [|n] eqn:En; [lia|].
  simpl. by rewrite He.
Qed.

(** X8. [normalize_contest] returns whenever [problems] is missing, falsy,
    a list or a string.  It raises [TypeError] when [problems] is a truthy
    number or boolean, which has no length, and [KeyError] when it is a
    non-empty object, which has no entry [0]. *)
Theorem normalize_contest_raises rec :
  match py_or (get k_problems rec) (VList []) with
  | VList _ | VStr _ => ∃ r, normalize_contest rec = Ok r
  | VDict _ => normalize_contest rec = Raise KeyError
  | _ => normalize_contest rec = Raise TypeError
  end.
Proof.
  pose proof (clamp_total_range (get k_total_problems rec)) as Hrange.
  assert (∀ probs,
            py_or (get k_problems rec) (VList []) = probs →
            (∃ l, probs = VList l) ∨ (∃ t, probs = VStr t) →
            ∃ r, normalize_contest rec = Ok r) as Hok.
  { intros probs Hp Hshape. unfold normalize_contest.
    assert (get k_problems (dict_set k_total_problems
              (VInt (clamp_total (get k_total_problems rec))) rec)
            = get k_problems rec) as -> by (unfold get; by dict_simp).
    rewrite Hp.
    destruct (contest_entries_total probs
                (seq 0 (Z.to_nat (clamp_total (get k_total_problems rec)))))
      as [es ->]; [|done|simpl; eauto].
    apply Forall_forall. intros i Hi%elem_of_seq. lia. }
  assert (∀ probs e,
            py_or (get k_problems rec) (VList []) = probs →
            contest_entry probs 0 = Raise e →
            normalize_contest rec = Raise e) as Hraise.
  { intros probs e Hp He. unfold normalize_contest.
    assert (get k_problems (dict_set k_total_problems
              (VInt (clamp_total (get k_total_problems rec))) rec)
            = get k_problems rec) as -> by (unfold get; by dict_simp).
    rewrite Hp, (contest_entries_first_raises _ _ e); [done|lia|done]. }
  destruct (py_or (get k_problems rec) (VList [])) as [|b|n|f|t|l|d] eqn:Hp.
  - unfold py_or in Hp. destruct (truthy _) eqn:Ht; [|done].
    rewrite Hp in Ht. done.
  - apply (Hraise (VBool b) TypeError); [done|]. by rewrite contest_entry_eq.
  - apply (Hraise (VInt n) TypeError); [done|]. by rewrite contest_entry_eq.
  - apply (Hraise (VFloat f) TypeError); [done|]. by rewrite contest_entry_eq.
  - eapply Hok; eauto.
  - eapply Hok; eauto.
  - apply (Hraise (VDict d) KeyError); [done|].
    unfold py_or in Hp. destruct (truthy _) eqn:Ht; [|done].
    rewrite Hp in Ht. destruct d; [done|]. by rewrite contest_entry_eq.
Qed.


(** ** Further properties of the problem store *)

Lemma legacy_key_sanitized r : legacy_key (dict_pop k_has_solution r) = legacy_key r.
Proof.
  apply legacy_key_ext. intros key [_ Hk]%legacy_key_untouched.
  by rewrite dict_get_pop_ne.
Qed.

Lemma load_after_save items st :
  Forall normalized (sanitize items) →
  Forall (λ r, legacy_key r = None) items →
  _load (_save items st).2
  = (Ok (flag (solutions st) <$> sanitize items), (_save items st).2).
Proof.
  intros Hn Hk.
  unfold _save, write_data_file. simpl.
  unfold _load, load_locked, write_data_file. io_unfold.
  rewrite (read_container_decoded _ (sanitize items)) by apply read_written.
  rewrite migrate_all_fixed; [|done|].
  - by rewrite attach_flags_eq.
  - unfold sanitize. apply Forall_fmap. eapply Forall_impl; [exact Hk|].
    intros r Hr. simpl. by rewrite legacy_key_sanitized.
Qed.


Lemma stripped_stage rec :
  dict_get k_unsolved_stage (stripped rec) = dict_get k_unsolved_stage rec.
Proof.
  unfold stripped. rewrite dict_get_pop_ne by key_ne.
  destruct (legacy_key rec) as [key|] eqn:Hk; [|done].
  apply legacy_key_Some in Hk as [Hin _].
  rewrite dict_get_pop_ne; [done|]. intros ->.
  unfold legacy_keys in Hin. rewrite !elem_of_cons in Hin.
  destruct Hin as [E|[E|[E|E%elem_of_nil]]]; [| | |done];
    vm_compute in E; discriminate E.
Qed.

Lemma normalize_record_raise_type rec e : normalize_record rec = Raise e → e = TypeError.
Proof.
  rewrite normalize_record_blocks.
  pose proof (check_stage_raises (default_solved (drop_computed rec))) as Hc.
  destruct (dict_get k_unsolved_stage _) as [[]|];
    first [ rewrite Hc; by intros [= <-] | by destruct Hc as [d' ->] ].
Qed.

Lemma migrate_record_outcome rec changed st :
  (migrate_record rec changed st).1
  = match normalize_record (stripped rec) with
    | Ok r => Ok (r, changed || sets_changed rec)
    | Raise e => Raise e
    end.
Proof.
  rewrite migrate_record_eq. unfold stripped, sets_changed.
  destruct (legacy_key rec) as [key|]; simpl.
  - destruct (normalize_record _); [|done]. simpl. by rewrite orb_true_r.
  - destruct (normalize_record _); [|done]. simpl.
    by destruct (is_none _), changed.
Qed.

(** A record on which [normalize_record] raises makes the whole loop raise. *)
Lemma migrate_all_raises items i rec changed st :
  items !! i = Some rec →
  normalize_record (stripped rec) = Raise TypeError →
  (migrate_all items changed st).1 = Raise TypeError.
Proof.
  revert i changed st. induction items as [|r0 items IH]; intros i changed st; [done|].
  intros Hi Hraise. simpl. io_unfold.
  pose proof (migrate_record_outcome r0 changed st) as Hout.
  destruct (migrate_record r0 changed st) as [[[r c]|e] st1]; simpl in Hout.
  - destruct i as [|i]; simpl in Hi.
    + injection Hi as ->. by rewrite Hraise in Hout.
    + specialize (IH i c st1 Hi Hraise).
      by destruct (migrate_all items c st1) as [[[rs c']|e] st2].
  - simpl. destruct (normalize_record (stripped r0)) as [|e'] eqn:E; [done|].
    injection Hout as ->. by apply normalize_record_raise_type in E as ->.
Qed.

(** X10. A container with one record whose [unsolved_stage] is a list or an
    object cannot be loaded: [_load] raises [TypeError], and leaves the
    container and its backup as they were. *)
Theorem load_raises_on_unhashable_stage st items i rec :
  read_json (data_file st) = Ok items →
  items !! i = Some rec →
  (∃ l, dict_get k_unsolved_stage rec = Some (VList l))
  ∨ (∃ d, dict_get k_unsolved_stage rec = Some (VDict d)) →
  (_load st).1 = Raise TypeError
  ∧ data_file (_load st).2 = data_file st
  ∧ backup_file (_load st).2 = backup_file st.
Proof.
  intros Hl Hi Hstage.
  assert (normalize_record (stripped rec) = Raise TypeError) as Hraise.
  { pose proof (normalize_record_outcome (stripped rec)) as Hr.
    rewrite stripped_stage in Hr.
    by destruct Hstage as [[l E]|[d E]]; rewrite E in Hr. }
  pose proof (migrate_all_raises items i rec false st Hi Hraise) as Hm.
  pose proof (migrate_all_files items false st) as [Hd Hb].
  unfold _load, load_locked. io_unfold. rewrite (read_container_decoded _ _ Hl).
  destruct (migrate_all items false st) as [[|e] st1]; simpl in *; [done|].
  by injection Hm as ->.
Qed.


(** *** Side-files are never empty *)

Lemma uint_str_nil (u : Decimal.uint) : uint_str u = [] → u = Decimal.Nil.
Proof. by destruct u. Qed.

Lemma str_of_Z_nonempty z : str_of_Z z ≠ [].
Proof.
  unfold str_of_Z. destruct (z <? 0)%Z; [done|].
  intros E%uint_str_nil. destruct (Z.abs_N z) as [|q]; [done|].
  by apply (Unsigned.to_uint_nonnil q).
Qed.

Lemma strip_nil : strip [] = [].
Proof. reflexivity. Qed.

Section NonEmpty.

(** [repr] never answers the empty string. *)
Hypothesis repr_nonempty : ∀ v, repr v ≠ [].

Lemma py_str_truthy v : truthy v = true → py_str v ≠ [].
Proof.
  destruct v as [|[]|n|f|t|l|d]; simpl; intros Ht; try done;
    first [ apply str_of_Z_nonempty
          | apply repr_nonempty
          | intros ->; by rewrite bool_decide_eq_true_2 in Ht ].
Qed.

Lemma sols_nonempty_insert sols pid text :
  sols_nonempty sols → text ≠ [] → sols_nonempty (<[pid := text]> sols).
Proof.
  intros Hs Ht k v. rewrite lookup_insert. case_decide.
  - by intros [= <-].
  - apply Hs.
Qed.

Lemma sols_nonempty_delete sols pid :
  sols_nonempty sols → sols_nonempty (delete pid sols).
Proof.
  intros Hs k v. rewrite lookup_delete. case_decide; [done|]. apply Hs.
Qed.

Lemma migrate_record_sols rec changed st :
  sols_nonempty (solutions st) →
  sols_nonempty (solutions (migrate_record rec changed st).2).
Proof.
  intros Hs. rewrite migrate_record_eq.
  destruct (legacy_key rec) as [key|] eqn:Hk; simpl.
  - apply legacy_key_Some in Hk as [_ Ht].
    destruct (truthy (get k_id (dict_pop key rec)));
      destruct (normalize_record _); simpl; try done;
      by apply sols_nonempty_insert, py_str_truthy.
  - by destruct (normalize_record _).
Qed.

Lemma migrate_all_sols items changed st :
  sols_nonempty (solutions st) →
  sols_nonempty (solutions (migrate_all items changed st).2).
Proof.
  revert changed st. induction items as [|rec items IH]; intros changed st Hs; [done|].
  simpl. io_unfold.
  pose proof (migrate_record_sols rec changed st Hs) as Hs1.
  destruct (migrate_record rec changed st) as [[[r c]|e] st1]; simpl in *; [|done].
  pose proof (IH c st1 Hs1) as Hs2.
  by destruct (migrate_all items c st1) as [[[rs c']|e] st2].
Qed.

Lemma load_state st : (_load st).2 = (load_locked st).2.
Proof.
  unfold _load. io_unfold.
  destruct (load_locked st) as [[items|e] st1]; [|done].
  apply attach_flags_state.
Qed.

Lemma load_sols st :
  sols_nonempty (solutions st) → sols_nonempty (solutions (_load st).2).
Proof.
  intros Hs. rewrite load_state.
  unfold load_locked, write_data_file. io_unfold. rewrite read_container_eq.
  destruct (read_text (data_file st)) as [raw|e]; [|done].
  destruct (loads raw) as [items|[]]; try done.
  pose proof (migrate_all_sols items false st Hs) as Hs1.
  destruct (migrate_all items false st) as [[[rs c]|e] st1]; simpl in *; [|done].
  by destruct c.
Qed.

Lemma load_and_find_sols pid st :
  sols_nonempty (solutions st) →
  sols_nonempty (solutions (_load_and_find_problem pid st).2).
Proof.
  intros Hs. apply load_sols in Hs. unfold _load_and_find_problem. io_unfold.
  destruct (_load st) as [[items|e] st1]; [|done].
  by destruct (find_index _ _).
Qed.


End NonEmpty.


(** *** The handlers *)

(** What [_load] returns: records in normal form, each with the flag
    computed from the side-files as they are when it returns. *)
Lemma load_result st out st1 :
  _load st = (Ok out, st1) →
  ∃ rs, out = flag (solutions st1) <$> rs ∧ Forall normalized rs.
Proof.
  unfold _load, load_locked, write_data_file. io_unfold. rewrite read_container_eq.
  destruct (read_text (data_file st)) as [raw|e]; [|done].
  destruct (loads raw) as [items|[]]; try done.
  - destruct (migrate_all items false st) as [[[rs c]|e] st0] eqn:E; [|done].
    pose proof (migrate_all_result _ _ _ _ _ _ E) as [Hrs _].
    apply migrate_all_normalized in Hrs.
    destruct c; rewrite attach_flags_eq; intros [= <- <-]; by exists rs.
  - intros [= <- <-]. by exists [].
Qed.

Lemma find_index_Some test items i :
  find_index test items = Some i →
  ∃ rec, items !! i = Some rec ∧ test rec = true.
Proof.
  revert i. induction items as [|r items IH]; intros i; simpl; [done|].
  destruct (test r) eqn:Et.
  - intros [= <-]. by exists r.
  - destruct (find_index test items) as [j|]; simpl; [|done].
    intros [= <-]. by apply IH.
Qed.

Lemma id_is_flag sols r pid : id_is pid (flag sols r) = id_is pid r.
Proof. unfold id_is, flag, get. by dict_simp. Qed.

Lemma id_is_true pid r : id_is pid r = true → get k_id r = VStr pid.
Proof.
  unfold id_is. destruct (get k_id r); try done.
  unfold str_eqb. by intros ->%bool_decide_eq_true.
Qed.

Lemma universal_newlines_nil (s : str) : universal_newlines s = [] → s = [].
Proof. destruct s as [|c r]; [done|]. simpl. by destruct (c =? 13). Qed.

(** X12. For a non-empty [pid], and when no side-file is empty, the
    [has_solution] that [get_solution] answers is the flag that [_load]
    attached to the record found, and [markdown] is the text of the
    side-file as it is read, with universal newlines, or the empty string
    when there is none. *)
Theorem get_solution_agrees_with_flag pid st resp st' :
  (∀ v, repr v ≠ []) → pid ≠ [] → sols_nonempty (solutions st) →
  get_solution pid st = (Ok resp, st') →
  ∃ items i rec,
    _load_and_find_problem pid st = (Ok (items, i), st')
    ∧ items !! i = Some rec
    ∧ dict_get k_has_solution resp = dict_get k_has_solution rec
    ∧ dict_get k_markdown resp
      = Some (VStr (default [] (universal_newlines <$> solutions st' !! pid))).
Proof.
  intros Hrepr Hpid Hs.
  pose proof (load_and_find_sols Hrepr pid st Hs) as Hs1.
  unfold get_solution, _read_solution. io_unfold.
  destruct (_load_and_find_problem pid st) as [[[items i]|e] st1] eqn:Hfind; [|done].
  simpl in Hs1. intros [= <- <-]. exists items, i.
  revert Hfind. unfold _load_and_find_problem. io_unfold.
  destruct (_load st) as [[out|e] st2] eqn:Hload; [|done].
  destruct (find_index (id_is pid) out) as [j|] eqn:Hj; [|done].
  intros [= <- <- <-].
  destruct (find_index_Some _ _ _ Hj) as (rec & Hrec & Hid).
  exists rec. split_and!; [done|done| |by dict_simp].
  destruct (load_result _ _ _ Hload) as (rs & -> & _).
  apply list_lookup_fmap_Some in Hrec as (r0 & -> & Hr0).
  rewrite id_is_flag in Hid. apply id_is_true in Hid.
  unfold flag. dict_simp. rewrite Hid. simpl.
  rewrite (bool_decide_eq_false_2 (pid = [])) by done. simpl. do 2 f_equal.
  destruct (solutions _ !! pid) as [text|] eqn:Et; simpl.
  - rewrite bool_decide_eq_false_2; [done|].
    intros E%universal_newlines_nil. by eapply Hs1.
  - reflexivity.
Qed.

Lemma without_id_filter pid items kept :
  without_id pid items = Ok kept →
  kept = filter (λ r, id_is pid r = false) items.
Proof.
  revert kept. induction items as [|r items IH]; intros kept; simpl.
  - by intros [= <-].
  - rewrite filter_cons.
    destruct (id_differs pid r) as [keep|] eqn:Ek; [|done].
    assert (id_is pid r = negb keep) as Hk.
    { revert Ek. unfold id_differs, id_is, get.
      destruct (dict_get k_id r) as [[| | | |s| |]|]; intros [= <-]; try done.
      by rewrite negb_involutive. }
    destruct (without_id pid items) as [rest|]; simpl; [|done].
    specialize (IH rest eq_refl). subst rest. intros [= <-].
    destruct keep; simpl in Hk; [by rewrite decide_True|].
    rewrite decide_False; [done|]. by rewrite Hk.
Qed.

(** X13. When [delete_problem] returns, the side-file of [pid] is gone and
    the container holds the loaded records, in order, without those whose
    id is [pid]; at least one record had that id. *)
Theorem delete_problem_removes pid st resp st' :
  delete_problem pid st = (Ok resp, st') →
  ∃ items st1,
    _load st = (Ok items, st1)
    ∧ data_file st'
      = write_text (dumps (sanitize (filter (λ r, id_is pid r = false) items)))
    ∧ solutions st' = delete pid (solutions st1)
    ∧ solutions st' !! pid = None
    ∧ Exists (λ r, id_is pid r = true) items.
Proof.
  unfold delete_problem, _save, write_data_file, _delete_solution. io_unfold.
  destruct (_load st) as [[items|e] st1]; [|done].
  destruct (without_id pid items) as [kept|e] eqn:Hk; [|done].
  apply without_id_filter in Hk as ->.
  case_bool_decide as Hlen; [done|]. simpl. intros [= <- <-].
  exists items, st1. simpl. split_and!; try done.
  - apply lookup_delete_eq.
  - destruct (decide (Exists (λ r, id_is pid r = true) items)) as [|Hno];
      [done|].
    destruct Hlen. f_equal.
    induction items as [|r items IH]; [done|].
    rewrite filter_cons.
    destruct (id_is pid r) eqn:E; [destruct Hno; by left|].
    rewrite decide_True by done. f_equal. apply IH.
    intros Hex. apply Hno. by right.
Qed.

(** X14. Deleting an id that no loaded record has, while every record has an
    id: [delete_problem] raises the 404 exception and saves nothing beyond
    what the load itself did. *)
Theorem delete_problem_not_found pid st items st1 :
  _load st = (Ok items, st1) →
  Forall (λ r, is_Some (dict_get k_id r)) items →
  Forall (λ r, id_is pid r = false) items →
  delete_problem pid st = (Raise (HTTPException 404), st1).
Proof.
  intros Hload Hids Hnone.
  unfold delete_problem. io_unfold. rewrite Hload.
  assert (without_id pid items = Ok items) as ->.
  { clear Hload. induction items as [|r items IH]; [done|].
    apply Forall_cons in Hids as [[v Hv] Hids].
    apply Forall_cons in Hnone as [Hr Hnone].
    simpl. rewrite (IH Hids Hnone). unfold id_differs. rewrite Hv.
    unfold id_is, get in Hr. rewrite Hv in Hr.
    destruct v; simpl; try done. by rewrite Hr. }
  by rewrite bool_decide_eq_true_2.
Qed.

(** *** Updating and creating *)

Lemma find_by_id_Some pid items i rec :
  find_by_id pid items = Ok (Some (i, rec)) →
  items !! i = Some rec ∧ dict_get k_id rec = Some (VStr pid).
Proof.
  revert i. induction items as [|r items IH]; intros i; simpl; [done|].
  destruct (dict_get k_id r) as [u|] eqn:Eu; [|done].
  destruct (match u with VStr s => str_eqb s pid | _ => false end) eqn:Em.
  - intros [= <- <-]. split; [done|]. destruct u; try done.
    unfold str_eqb in Em. by apply bool_decide_eq_true in Em as ->.
  - destruct (find_by_id pid items) as [[[j r']|]|e]; simpl; [|done..].
    intros [= <- <-]. by apply IH.
Qed.

(** A key that [e] does not have is not touched by [d.update(e)]. *)
Lemma dict_get_update_absent k d e :
  dict_get k e = None → dict_get k (dict_update d e) = dict_get k d.
Proof.
  unfold dict_update. revert d. induction e as [|[k0 v0] e IH]; intros d; simpl; [done|].
  case_decide; [done|]. intros He. rewrite IH by done. by rewrite dict_get_set_ne.
Qed.

Lemma handler_data_eq item :
  handler_data item
  = [(k_title, VStr (title item));
     (k_link, opt_val VStr (link item));
     (k_source, opt_val VStr (source item));
     (k_tags, VList (VStr <$> tags item));
     (k_assignee, opt_val VStr (assignee item));
     (k_solved, VBool (solved item));
     (k_unsolved_stage,
      if solved item then VNone
      else opt_val (λ s, VStr (stage_str s)) (unsolved_stage item));
     (k_unsolved_custom_label,
      if solved item then VNone else opt_val VStr (unsolved_custom_label item));
     (k_pass_count, opt_val VInt (pass_count item));
     (k_notes, opt_val VStr (notes item))].
Proof. unfold handler_data, model_dump. destruct (solved item); reflexivity. Qed.

(** X15. When [update_problem] returns, the record it answers replaces a
    loaded record with that id: it has the same [id] and [created_at], the
    new [updated_at] and the title of the request; the container holds the
    loaded records with this one replaced in place, and no side-file is
    touched. *)
Theorem update_problem_keeps_identity pid item now st resp st' :
  update_problem pid item now st = (Ok resp, st') →
  ∃ items st1 i rec,
    _load st = (Ok items, st1)
    ∧ items !! i = Some rec
    ∧ dict_get k_id rec = Some (VStr pid)
    ∧ dict_get k_id resp = Some (VStr pid)
    ∧ dict_get k_created_at resp = dict_get k_created_at rec
    ∧ dict_get k_updated_at resp = Some (VStr now)
    ∧ dict_get k_title resp = Some (VStr (title item))
    ∧ data_file st' = write_text (dumps (sanitize (<[i := resp]> items)))
    ∧ solutions st' = solutions st1.
Proof.
  unfold update_problem, _save, write_data_file, _solution_exists. io_unfold.
  destruct (_load st) as [[items|e] st1]; [|done].
  destruct (find_by_id pid items) as [[[i rec]|]|e] eqn:Hfind; [|done..].
  apply find_by_id_Some in Hfind as [Hi Hid].
  destruct (normalize_record _) as [new|e] eqn:Hnew; [|done].
  intros [= <- <-]. exists items, st1, i, rec. simpl.
  assert (∀ k, k ∉ touched_keys → k ≠ k_updated_at →
               dict_get k (handler_data item) = None →
               dict_get k new = dict_get k rec) as Hkeep.
  { intros k Hk Hu Hd. rewrite (normalize_record_untouched _ _ _ Hnew Hk).
    rewrite dict_get_set_ne by done. by apply dict_get_update_absent. }
  assert (∀ k, k ∉ touched_keys → k ≠ k_has_solution) as Hhs.
  { intros k Hk ->. apply Hk. apply list_elem_of_here. }
  split_and!; try done.
  - rewrite dict_get_set_ne by key_ne. rewrite Hkeep; [done| |key_ne|].
    + unfold touched_keys. rewrite !not_elem_of_cons.
      split_and!; (key_ne || apply not_elem_of_nil).
    + by rewrite handler_data_eq.
  - rewrite dict_get_set_ne by key_ne. apply Hkeep; [|key_ne|].
    + unfold touched_keys. rewrite !not_elem_of_cons.
      split_and!; (key_ne || apply not_elem_of_nil).
    + by rewrite handler_data_eq.
  - rewrite dict_get_set_ne by key_ne.
    rewrite (normalize_record_untouched _ _ _ Hnew).
    + by rewrite dict_get_set_eq.
    + unfold touched_keys. rewrite !not_elem_of_cons.
      split_and!; (key_ne || apply not_elem_of_nil).
  - rewrite dict_get_set_ne by key_ne.
    rewrite (normalize_record_untouched _ _ _ Hnew).
    + rewrite dict_get_set_ne by key_ne. rewrite handler_data_eq.
      unfold dict_update. cbn [fold_left fst snd]. by dict_simp.
    + unfold touched_keys. rewrite !not_elem_of_cons.
      split_and!; (key_ne || apply not_elem_of_nil).
  - f_equal. unfold sanitize. rewrite !list_fmap_insert. by rewrite dict_pop_set.
Qed.


(** The record of [create_problem], field by field. *)
Lemma Problem_eq id created updated item :
  Problem id created updated (handler_data item)
  = [(k_title, VStr (title item));
     (k_link, opt_val VStr (link item));
     (k_source, _strip_optional_text (opt_val VStr (source item)));
     (k_tags, VList (VStr <$> tags item));
     (k_assignee, _strip_optional_text (opt_val VStr (assignee item)));
     (k_solved, VBool (solved item));
     (k_unsolved_stage,
      if solved item then VNone
      else opt_val (λ s, VStr (stage_str s)) (unsolved_stage item));
     (k_unsolved_custom_label,
      if solved item then VNone
      else _strip_optional_text (opt_val VStr (unsolved_custom_label item)));
     (k_pass_count, opt_val VInt (pass_count item));
     (k_notes, _strip_optional_text (opt_val VStr (notes item)));
     (k_id, VStr id); (k_created_at, VStr created); (k_updated_at, VStr updated);
     (k_has_solution, VBool false)].
Proof.
  rewrite handler_data_eq. unfold Problem, _clear_unsolved_when_solved.
  destruct (solved item); reflexivity.
Qed.

Lemma strip_optional_text_ok (o : option str) :
  text_ok (Some (_strip_optional_text (opt_val VStr o))).
Proof. destruct o as [t|]; simpl; [apply strip_or_none_ok|by left]. Qed.

(** The record that [create_problem] saves is in normal form. *)
Lemma Problem_normalized id created updated item :
  normalized (dict_pop k_has_solution (Problem id created updated (handler_data item))).
Proof.
  rewrite Problem_eq.
  split.
  - apply dict_get_pop_eq.
  - reflexivity.
  - by eexists.
  - change (stage_ok (Some (if solved item then VNone
                            else opt_val (λ s, VStr (stage_str s)) (unsolved_stage item)))).
    destruct (solved item); [by left|].
    destruct (unsolved_stage item) as [[]|]; [right..|by left]; by eexists.
  - change (text_ok (Some (if solved item then VNone
                           else _strip_optional_text
                                  (opt_val VStr (unsolved_custom_label item))))).
    destruct (solved item); [by left|]. apply strip_optional_text_ok.
  - by eexists.
  - change (pass_ok (Some (opt_val VInt (pass_count item)))).
    destruct (pass_count item); [right; right; by eexists|right; by left].
  - apply strip_optional_text_ok.
  - change (truthy (VBool (solved item)) = true →
            Some (if solved item then VNone
                  else opt_val (λ s, VStr (stage_str s)) (unsolved_stage item))
            = Some VNone
            ∧ Some (if solved item then VNone
                    else _strip_optional_text
                           (opt_val VStr (unsolved_custom_label item)))
              = Some VNone).
    simpl. by intros ->.
Qed.

Lemma sanitize_app items out : sanitize (items ++ out) = sanitize items ++ sanitize out.
Proof. apply map_app. Qed.



(** *** Exporting *)

(** X17. [export_json], when no side-file is empty: it writes nothing after
    the load; the exported records are the loaded ones, in order, without
    [has_solution] and with every key other than [solution_markdown] as
    loaded; a record flagged [has_solution] carries the text of its
    side-file, read with universal newlines, under [solution_markdown], any
    other keeps what it had under that key. *)
Theorem export_json_embeds_solutions st out st' :
  (∀ v, repr v ≠ []) → sols_nonempty (solutions st) →
  export_json st = (Ok out, st') →
  ∃ items,
    _load st = (Ok items, st')
    ∧ Forall2 (λ rec x,
         dict_get k_has_solution x = None
         ∧ (∀ k, k ≠ k_has_solution → k ≠ k_solution_markdown →
                 dict_get k x = dict_get k rec)
         ∧ (dict_get k_has_solution rec = Some (VBool true) →
            ∃ text, solutions st' !! py_str (get k_id rec) = Some text
                    ∧ dict_get k_solution_markdown x
                      = Some (VStr (universal_newlines text)))
         ∧ (dict_get k_has_solution rec = Some (VBool false) →
            dict_get k_solution_markdown x = dict_get k_solution_markdown rec))
        items out.
Proof.
  intros Hrepr Hs. pose proof (load_sols Hrepr st Hs) as Hs1.
  unfold export_json. io_unfold.
  destruct (_load st) as [[items|e] st1] eqn:Hload; [|done].
  simpl in Hs1. intros [= <- <-]. exists items. split; [done|].
  destruct (load_result _ _ _ Hload) as (rs & -> & _).
  apply Forall2_fmap_r, Forall_Forall2_diag, Forall_forall.
  intros rec (r & -> & _)%list_elem_of_fmap.
  assert (get k_id (flag (solutions st1) r) = get k_id r) as Hgid
    by (unfold get, flag; by dict_simp).
  assert (dict_get k_has_solution (flag (solutions st1) r)
          = Some (VBool (if truthy (get k_id r)
                         then bool_decide (is_Some (solutions st1 !! py_str (get k_id r)))
                         else false))) as Hflag
    by (unfold flag; by dict_simp).
  unfold export_record, compose. cbv beta zeta. rewrite !Hgid, Hflag.
  generalize (flag (solutions st1) r). intros fr.
  destruct (truthy (get k_id r)).
  - destruct (solutions st1 !! py_str (get k_id r)) as [text|] eqn:Et.
    + cbn [fmap option_fmap option_map].
      destruct (universal_newlines text) as [|c read] eqn:Eu.
      { apply universal_newlines_nil in Eu. by destruct (Hs1 _ _ Et). }
      cbv beta iota. split_and!.
      * apply dict_get_pop_eq.
      * intros k Hk Hm. rewrite dict_get_pop_ne by done.
        by rewrite dict_get_set_ne by done.
      * intros _. exists text. split; [done|]. rewrite Eu. by dict_simp.
      * rewrite bool_decide_eq_true_2 by eauto. done.
    + cbn [fmap option_fmap option_map]. split_and!.
      * apply dict_get_pop_eq.
      * intros k Hk Hm. by rewrite dict_get_pop_ne by done.
      * rewrite bool_decide_eq_false_2 by (by intros []). done.
      * intros _. by dict_simp.
  - split_and!.
    + apply dict_get_pop_eq.
    + intros k Hk Hm. by rewrite dict_get_pop_ne by done.
    + done.
    + intros _. by dict_simp.
Qed.


End Store.
End ServerProofs.

(** ** The git functions *)

Module GitProofs.

(** *** C4 *)

Lemma replace_from_quote_here (c : N) (r : str) :
  replace_from [dquote] [backslash; dquote] 0 (c :: r) =
  if c =? dquote
  then backslash :: dquote :: replace_from [dquote] [backslash; dquote] 0 r
  else c :: replace_from [dquote] [backslash; dquote] 0 r.
Proof.
  cbn [replace_from is_prefix length Nat.sub app].
  rewrite (N.eqb_sym dquote c). by destruct (c =? dquote).
Qed.

(** A message without backslash, dollar or backquote is read back by [sh]
    as it was written: escaping the double quotes is enough for those. *)
Lemma plain_message_read_back (message acc : str) :
  Forall (λ c, c ≠ backslash ∧ c ≠ 36 ∧ c ≠ 96) message →
  read_dquoted_from false acc (after_open_quote message) = Closed (acc ++ message) [].
Proof.
  unfold after_open_quote, escape_message, replace.
  intros Hm. revert acc. induction Hm as [|c r (Hb & Hd & Hq) _ IH]; intros acc.
  - cbn. by rewrite app_nil_r.
  - rewrite replace_from_quote_here.
    assert ((c =? backslash) = false) as Eb by (by apply N.eqb_neq).
    assert ((c =? 36) = false) as Ed by (by apply N.eqb_neq).
    assert ((c =? 96) = false) as Eq' by (by apply N.eqb_neq).
    destruct (c =? dquote) eqn:Ec.
    + apply N.eqb_eq in Ec as ->.
      cbn [read_dquoted_from app]. cbn [N.eqb Pos.eqb orb].
      cbn [read_dquoted_from]. rewrite IH. by rewrite <- app_assoc.
    + cbn [read_dquoted_from app]. rewrite Ec, Ed, Eq', Eb. cbn [orb].
      rewrite IH. by rewrite <- app_assoc.
Qed.

(** C4. The escaping of [git_push] fails on a message with a backslash
    before a double quote: in the command built for
    [\"; touch pwned #] the shell ends the quoted word after a single
    backslash and reads [; touch pwned #"] as further command text. *)
Theorem commit_message_breaks_out :
  let message := [backslash; dquote] ++ lit "; touch pwned #" in
  commit_command message
  = lit "git commit -m " ++ [dquote; backslash; backslash; dquote]
      ++ lit "; touch pwned #" ++ [dquote]
  ∧ read_dquoted (after_open_quote message)
    = Closed [backslash] (lit "; touch pwned #" ++ [dquote]).
Proof. split; vm_compute; reflexivity. Qed.


(** *** C7 *)

Section Pull.

Context `{Shell}.

(** Unfolds the plumbing of [prog]. *)
Ltac prog_unfold :=
  unfold mbind, mret, prog_mbind, prog_mret, prog_bind, prog_ret in *.

Lemma run_sh_issued dir cmd w r w' :
  run_sh dir cmd w = (r, w') → issued w' = issued w ++ [(dir, cmd)].
Proof.
  unfold run_sh. destruct (exec dir cmd (state w)) as [[[rc out] err] e].
  by intros [= <- <-].
Qed.

(** [git_pull] of [git_utils.py], when the remote is configured and the
    plain pull exits non-zero: the retry is the only further command, and
    the transcript holds what the first attempt printed, the standard output
    of the retry and the verdict. *)
Lemma utils_git_pull_retry now repo_url branch w out0 w0 cr w1 r1 w2 :
  GitUtils.ensure_repo now repo_url branch w = (out0, w0) →
  GitUtils._sh (lit "git remote get-url origin") w0 = (cr, w1) →
  returncode cr = 0%Z →
  GitUtils._sh (GitUtils.pull_command branch) w1 = (r1, w2) →
  returncode r1 ≠ 0%Z →
  ∃ r2 w3 output,
    GitUtils._sh (GitUtils.retry_command branch) w2 = (r2, w3)
    ∧ GitUtils.git_pull now repo_url branch w = (output, w3)
    ∧ issued w3
      = issued w1 ++ [(DATA_DIR, GitUtils.pull_command branch); (DATA_DIR, GitUtils.retry_command branch)]
    ∧ output
      = out0 ++ lit "=== git pull origin " ++ branch ++ lit " ===" ++ nl
          ++ lit "Return code: " ++ str_of_Z (returncode r1) ++ nl ++ nl
          ++ lit "stdout:" ++ nl ++ stdout r1 ++ nl ++ nl
          ++ match stderr r1 with
             | [] => []
             | e => lit "stderr:" ++ nl ++ e ++ nl
             end
          ++ nl ++ lit "第一次拉取？尝试使用 --allow-unrelated-histories..." ++ nl
          ++ nl ++ stdout r2 ++ nl ++ nl
          ++ (if (returncode r2 =? 0)%Z
              then lit "✓ 成功拉取远程更新" else lit "❌ 拉取失败").
Proof.
  intros Hensure Hcheck Hcr Hpull Hr1.
  destruct (GitUtils._sh (GitUtils.retry_command branch) w2) as [r2 w3] eqn:Hretry.
  exists r2, w3. eexists. split; [done|].
  assert ((returncode r1 =? 0)%Z = false) as Er1 by (by apply Z.eqb_neq).
  split_and!; [| |reflexivity].
  - unfold GitUtils.git_pull. prog_unfold. rewrite Hensure, Hcheck, Hcr.
    cbn [Z.eqb negb]. fold (GitUtils.pull_command branch). rewrite Hpull, Er1.
    fold (GitUtils.retry_command branch). rewrite Hretry.
    destruct (stderr r1), (returncode r2 =? 0)%Z;
      apply (f_equal (λ x, (x, w3)));
      rewrite <- !app_assoc, ?app_nil_l; reflexivity.
  - apply run_sh_issued in Hpull, Hretry. rewrite Hretry, Hpull.
    by rewrite <- app_assoc.
Qed.

(** [git_pull] of [server.py] issues the repository check and then at most
    one pull, whose result it reports. *)
Lemma server_git_pull_single remote branch w resp w' :
  Server.git_pull remote branch w = (resp, w') →
  let check := (BASE_DIR, lit "git rev-parse --is-inside-work-tree") in
  let pull :=
    lit "git pull " ++ shlex_quote (Server.str_or (strip remote) (lit "origin"))
      ++ lit " " ++ shlex_quote (Server.str_or (strip branch) (lit "main")) in
  (resp = Server.NotAGitRepo ∧ issued w' = issued w ++ [check])
  ∨ ∃ r, resp = Server.PullResult (returncode r =? 0)%Z r
         ∧ cmd r = pull
         ∧ issued w' = issued w ++ [check; (BASE_DIR, pull)].
Proof.
  unfold Server.git_pull, Server._git_in_repo, Server._sh. prog_unfold.
  destruct (run_sh BASE_DIR (lit "git rev-parse --is-inside-work-tree") w)
    as [r0 w0] eqn:E0.
  pose proof (run_sh_issued _ _ _ _ _ E0) as H0.
  destruct (_ && _); cbn [negb].
  - destruct (run_sh BASE_DIR _ w0) as [r w1] eqn:E1.
    pose proof (run_sh_issued _ _ _ _ _ E1) as H1.
    assert (cmd r = lit "git pull " ++ shlex_quote (Server.str_or (strip remote) (lit "origin"))
      ++ lit " " ++ shlex_quote (Server.str_or (strip branch) (lit "main"))) as Hcmd.
    { unfold run_sh in E1. destruct (exec _ _ _) as [[[? ?] ?] ?].
      by injection E1 as <- _. }
    intros Hresp. right. exists r.
    destruct (returncode r =? 0)%Z; injection Hresp as <- <-;
      by rewrite H1, H0, <- app_assoc.
  - intros [= <- <-]. by left.
Qed.

(** C7, amended. [git_pull] of [git_utils.py]: when the plain pull exits
    non-zero it is retried exactly once with [--allow-unrelated-histories],
    no command follows, and the transcript ends with the success line when
    the retry exits zero and with the failure line otherwise, after the
    output of the first attempt and the standard output of the retry.
    [git_pull] of [server.py] makes a single attempt and reports it. *)
Theorem git_pull_fallback :
  (∀ now repo_url branch w out0 w0 cr w1 r1 w2,
     GitUtils.ensure_repo now repo_url branch w = (out0, w0) →
     GitUtils._sh (lit "git remote get-url origin") w0 = (cr, w1) →
     returncode cr = 0%Z →
     GitUtils._sh (GitUtils.pull_command branch) w1 = (r1, w2) →
     returncode r1 ≠ 0%Z →
     ∃ r2 w3 output,
       GitUtils._sh (GitUtils.retry_command branch) w2 = (r2, w3)
       ∧ GitUtils.git_pull now repo_url branch w = (output, w3)
       ∧ issued w3
         = issued w1 ++ [(DATA_DIR, GitUtils.pull_command branch);
                         (DATA_DIR, GitUtils.retry_command branch)]
       ∧ output
         = out0 ++ lit "=== git pull origin " ++ branch ++ lit " ===" ++ nl
             ++ lit "Return code: " ++ str_of_Z (returncode r1) ++ nl ++ nl
             ++ lit "stdout:" ++ nl ++ stdout r1 ++ nl ++ nl
             ++ match stderr r1 with
                | [] => []
                | e => lit "stderr:" ++ nl ++ e ++ nl
                end
             ++ nl ++ lit "第一次拉取？尝试使用 --allow-unrelated-histories..." ++ nl
             ++ nl ++ stdout r2 ++ nl ++ nl
             ++ (if (returncode r2 =? 0)%Z
                 then lit "✓ 成功拉取远程更新" else lit "❌ 拉取失败"))
  ∧ (∀ remote branch w resp w',
       Server.git_pull remote branch w = (resp, w') →
       let check := (BASE_DIR, lit "git rev-parse --is-inside-work-tree") in
       let pull :=
         lit "git pull " ++ shlex_quote (Server.str_or (strip remote) (lit "origin"))
           ++ lit " " ++ shlex_quote (Server.str_or (strip branch) (lit "main")) in
       (resp = Server.NotAGitRepo ∧ issued w' = issued w ++ [check])
       ∨ ∃ r, resp = Server.PullResult (returncode r =? 0)%Z r
              ∧ cmd r = pull
              ∧ issued w' = issued w ++ [check; (BASE_DIR, pull)]).
Proof.
  split.
  - apply utils_git_pull_retry.
  - apply server_git_pull_single.
Qed.

End Pull.

(** *** Pushing *)

(** X18. A commit message without backslash, dollar sign or backquote is
    passed whole: in the command that [git_push] builds, [sh] reads the
    double-quoted word back as the message itself and the command line ends
    with the closing quote. *)
Theorem plain_message_is_one_argument (message : str) :
  Forall (λ c, c ≠ backslash ∧ c ≠ 36 ∧ c ≠ 96) message →
  commit_command message
  = lit "git commit -m " ++ [dquote] ++ after_open_quote message
  ∧ read_dquoted (after_open_quote message) = Closed message [].
Proof.
  intros Hm. split; [reflexivity|].
  exact (plain_message_read_back message [] Hm).
Qed.

Section Push.

Context `{Shell}.

Ltac prog_unfold :=
  unfold mbind, mret, prog_mbind, prog_mret, prog_bind, prog_ret in *.

Lemma run_sh_outcome dir c w r w' :
  run_sh dir c w = (r, w') →
  cmd r = c ∧ issued w' = issued w ++ [(dir, c)] ∧ config_file w' = config_file w.
Proof.
  unfold run_sh. destruct (exec dir c (state w)) as [[[rc out] err] e].
  by intros [= <- <-].
Qed.

(** X19. [git_push] of [git_utils.py] with nothing staged: when [git add -A]
    exits zero and [git diff --cached --name-only] prints nothing but white
    space, the answer is the notice alone (the transcript gathered so far is
    dropped) and the two commands are the last ones issued: nothing is
    committed or pushed. *)
Theorem utils_git_push_no_changes now stamp repo_url message branch
    w out0 w0 cr w1 a w2 d w3 :
  GitUtils.ensure_repo now repo_url branch w = (out0, w0) →
  GitUtils._sh (lit "git remote get-url origin") w0 = (cr, w1) →
  returncode cr = 0%Z →
  GitUtils._sh (lit "git add -A") w1 = (a, w2) →
  returncode a = 0%Z →
  GitUtils._sh (lit "git diff --cached --name-only") w2 = (d, w3) →
  strip (stdout d) = [] →
  GitUtils.git_push now stamp repo_url message branch w
  = (lit "ℹ️ 没有需要提交的更改", w3)
  ∧ issued w3
    = issued w1 ++ [(DATA_DIR, lit "git add -A");
                    (DATA_DIR, lit "git diff --cached --name-only")].
Proof.
  intros Hensure Hcheck Hcr Hadd Ha Hdiff Hd. split.
  - unfold GitUtils.git_push. prog_unfold.
    rewrite Hensure, Hcheck, Hcr. cbn [Z.eqb negb].
    rewrite Hadd, Ha. cbn [Z.eqb negb]. rewrite Hdiff, Hd.
    by rewrite bool_decide_eq_true_2.
  - apply run_sh_outcome in Hadd as (_ & Hadd & _).
    apply run_sh_outcome in Hdiff as (_ & Hdiff & _).
    by rewrite Hdiff, Hadd, <- app_assoc.
Qed.

(** X20. [git_push] of [git_utils.py], when the commit went through and
    [git push origin <branch>] exits non-zero: the push is retried exactly
    once as [git push -u origin <branch>], no command follows, and the
    transcript ends with the success line when the retry exits zero and
    with the failure line otherwise.  The commit carries the message given,
    or [update data (<time>)] when that is missing or blank. *)
Theorem utils_git_push_retry now stamp repo_url message branch
    w out0 w0 cr w1 a w2 d w3 c w4 p w5 :
  GitUtils.ensure_repo now repo_url branch w = (out0, w0) →
  GitUtils._sh (lit "git remote get-url origin") w0 = (cr, w1) →
  returncode cr = 0%Z →
  GitUtils._sh (lit "git add -A") w1 = (a, w2) →
  returncode a = 0%Z →
  GitUtils._sh (lit "git diff --cached --name-only") w2 = (d, w3) →
  strip (stdout d) ≠ [] →
  GitUtils._sh (commit_command (GitUtils.commit_message stamp message)) w3 = (c, w4) →
  returncode c = 0%Z →
  GitUtils._sh (lit "git push origin " ++ branch) w4 = (p, w5) →
  returncode p ≠ 0%Z →
  ∃ p2 w6 output transcript,
    GitUtils._sh (lit "git push -u origin " ++ branch) w5 = (p2, w6)
    ∧ GitUtils.git_push now stamp repo_url message branch w = (output, w6)
    ∧ issued w6 = issued w5 ++ [(DATA_DIR, lit "git push -u origin " ++ branch)]
    ∧ output
      = transcript ++ nl
          ++ (if (returncode p2 =? 0)%Z
              then lit "✓ 成功推送到远程（设置上游分支）" else lit "❌ 推送失败").
Proof.
  intros Hensure Hcheck Hcr Hadd Ha Hdiff Hd Hcommit Hc Hpush Hp.
  destruct (GitUtils._sh (lit "git push -u origin " ++ branch) w5) as [p2 w6] eqn:Hretry.
  exists p2, w6.
  assert ((returncode p =? 0)%Z = false) as Ep by (by apply Z.eqb_neq).
  pose proof (run_sh_outcome _ _ _ _ _ Hretry) as (_ & Hissued & _).
  unfold GitUtils.git_push. prog_unfold.
  rewrite Hensure, Hcheck, Hcr. cbn [Z.eqb negb].
  rewrite Hadd, Ha. cbn [Z.eqb negb]. rewrite Hdiff.
  rewrite (bool_decide_eq_false_2 _ Hd).
  fold (GitUtils.commit_message stamp message).
  rewrite Hcommit, Hc. cbn [Z.eqb negb]. rewrite Hpush, Ep, Hretry.
  destruct (stderr p2), (returncode p2 =? 0)%Z;
    (eexists _, _; split_and!; [done|reflexivity|done|reflexivity]).
Qed.

Lemma run_sh_config dir c w : config_file (run_sh dir c w).2 = config_file w.
Proof.
  destruct (run_sh dir c w) as [r w'] eqn:E.
  by apply run_sh_outcome in E as (_ & _ & E).
Qed.

(** One command of a run: its effect on the cached configuration. *)
Ltac run_step :=
  match goal with
  | |- context [run_sh ?dir ?c ?w] =>
    let r := fresh "r" in
    let w' := fresh "w" in
    let E := fresh "E" in
    pose proof (run_sh_config dir c w) as E;
    destruct (run_sh dir c w) as [r w']; cbn [snd] in E
  | |- context [if ?b then _ else _] => destruct b
  end; cbv beta iota zeta.

Lemma init_data_repo_config now repo_url branch w :
  GitUtils.kept_or_saved now repo_url branch w
    (GitUtils.init_data_repo now repo_url branch w).2.
Proof.
  unfold GitUtils.kept_or_saved, GitUtils.init_data_repo, GitUtils.is_data_git_repo, GitUtils.save_git_config,
    GitUtils._sh.
  prog_unfold.
  destruct (GitUtils.blank repo_url) eqn:Hblank; cbv beta iota zeta;
    repeat run_step;
    first [ left; cbn [snd config_file] in *; congruence
          | right; split; [done|]; cbn [snd config_file] in *; congruence ].
Qed.

Lemma ensure_repo_config now repo_url branch w :
  GitUtils.kept_or_saved now repo_url branch w
    (GitUtils.ensure_repo now repo_url branch w).2.
Proof.
  unfold GitUtils.kept_or_saved, GitUtils.ensure_repo, GitUtils.is_data_git_repo, GitUtils.save_git_config,
    GitUtils._sh.
  prog_unfold.
  pose proof (run_sh_config DATA_DIR (lit "git rev-parse --is-inside-work-tree") w) as E.
  destruct (run_sh DATA_DIR (lit "git rev-parse --is-inside-work-tree") w) as [r w0].
  cbn [snd] in E. cbv beta iota zeta.
  destruct (_ && _); cbn [negb]; cbv beta iota zeta.
  - destruct (GitUtils.blank repo_url) eqn:Hblank; cbn [negb]; cbv beta iota zeta.
    + left. by cbn [snd].
    + run_step. right. split; [done|]. by cbn [snd config_file].
  - pose proof (init_data_repo_config now repo_url branch w0) as Hinit.
    unfold GitUtils.kept_or_saved in Hinit.
    destruct (GitUtils.init_data_repo now repo_url branch w0) as [out w1].
    cbn [snd] in *. by rewrite E in Hinit.
Qed.

Lemma git_pull_config now repo_url branch w :
  config_file (GitUtils.git_pull now repo_url branch w).2
  = config_file (GitUtils.ensure_repo now repo_url branch w).2.
Proof.
  unfold GitUtils.git_pull, GitUtils._sh. prog_unfold.
  destruct (GitUtils.ensure_repo now repo_url branch w) as [out w0].
  cbv beta iota zeta. repeat run_step; cbn [snd] in *; congruence.
Qed.

Lemma git_push_config now stamp repo_url message branch w :
  config_file (GitUtils.git_push now stamp repo_url message branch w).2
  = config_file (GitUtils.ensure_repo now repo_url branch w).2.
Proof.
  unfold GitUtils.git_push, GitUtils._sh. prog_unfold.
  destruct (GitUtils.ensure_repo now repo_url branch w) as [out w0].
  cbv beta iota zeta. repeat run_step; cbn [snd] in *; congruence.
Qed.

(** X21. The cached git configuration never holds a blank repository
    address: after [init_data_repo], [git_pull] or [git_push] of
    [git_utils.py] the configuration is the one from before, or the address
    given is not blank and the configuration holds it and the branch, both
    stripped, with the time of the call. *)
Theorem git_config_never_blank now stamp repo_url message branch w :
  GitUtils.kept_or_saved now repo_url branch w
    (GitUtils.init_data_repo now repo_url branch w).2
  ∧ GitUtils.kept_or_saved now repo_url branch w
      (GitUtils.git_pull now repo_url branch w).2
  ∧ GitUtils.kept_or_saved now repo_url branch w
      (GitUtils.git_push now stamp repo_url message branch w).2.
Proof.
  unfold GitUtils.kept_or_saved at 2 3. rewrite git_pull_config, git_push_config.
  split_and!; [apply init_data_repo_config|apply ensure_repo_config..].
Qed.

Lemma str_or_nonempty (t d : str) : d ≠ [] → Server.str_or t d ≠ [].
Proof. by destruct t. Qed.

(** One command of a run of the endpoint: what was issued. *)
Ltac issue_step :=
  match goal with
  | |- context [run_sh ?dir ?c ?w] =>
    let E := fresh "E" in
    destruct (run_sh dir c w) as [? ?] eqn:E;
    apply run_sh_outcome in E as (? & ? & _)
  | |- context [if ?b then _ else _] => destruct b eqn:?
  end; cbv beta iota zeta.

(** X22. The push endpoint of [server.py] answers [ok: true] (steps [push]
    and [push_upstream]) only for a push command that exited zero and was
    the last command issued, after a commit with the message given;
    the branch of [git push -u origin <branch>] is never empty. *)
Theorem server_git_push_ok message files add_all w step r w' :
  Server.git_push message files add_all w = (Server.StepOk step r, w') →
  returncode r = 0%Z
  ∧ (BASE_DIR, commit_command message) ∈ issued w'
  ∧ last (issued w') = Some (BASE_DIR, cmd r)
  ∧ (step = lit "push" ∧ cmd r = lit "git push"
     ∨ step = lit "push_upstream"
       ∧ ∃ branch, branch ≠ [] ∧ cmd r = lit "git push -u origin " ++ branch).
Proof.
  unfold Server.git_push, Server._git_in_repo, Server._git_current_branch, Server._sh.
  prog_unfold. repeat issue_step;
    (intros Heq; try discriminate Heq; injection Heq as <- <- <-);
    repeat match goal with
           | Hi : issued ?x = _ |- context [issued ?x] => rewrite Hi
           end.
  all: split_and!.
  all: try (by apply Z.eqb_eq).
  all: try (rewrite !elem_of_app, !list_elem_of_singleton; naive_solver).
  all: try (rewrite last_snoc; congruence).
  all: try (left; split; [reflexivity|done]).
  all: right; split; [reflexivity|]; eexists; split; [|done];
    by apply str_or_nonempty.
Qed.

End Push.

End GitProofs.

(** * Worked inputs *)

Module Examples.
Import Server ServerProofs Inputs.

#[local] Existing Instances Demo.runtime Demo.no_repr Demo.files.

Example normalize_legacy_record :
  normalize_record legacy_popped = Ok legacy_normalized
  ∧ normalize_record legacy_normalized = Ok legacy_normalized.
Proof. split; reflexivity. Qed.

(** A list under [unsolved_stage] cannot be hashed. *)
Example normalize_unhashable_stage :
  normalize_record [(k_unsolved_stage, VList [])] = Raise TypeError.
Proof. reflexivity. Qed.

Example load_legacy_record :
  _load legacy_start
  = (Ok [dict_set k_has_solution (VBool true) legacy_normalized], legacy_loaded).
Proof. reflexivity. Qed.

(** C2 as stated fails: the migration drops [owner] and fills five fields,
    yet the container still holds the record as it was. *)
Lemma load_keeps_file_after_owner_drop :
  let st := Fs (Demo.Encoded [owner_record]) None ∅ in
  _load st = (Ok [dict_set k_has_solution (VBool false) owner_normalized], st)
  ∧ normalize_record owner_record = Ok owner_normalized
  ∧ owner_normalized ≠ owner_record
  ∧ data_file st = write_text (dumps [owner_record])
  ∧ data_file st ≠ write_text (dumps [owner_normalized]).
Proof.
  split_and!; try reflexivity.
  - intros E%(f_equal length). discriminate E.
  - intros E. injection E as E. discriminate E.
Qed.

Lemma load_rewrites_when_changed_witness :
  data_file legacy_loaded
  = write_text (dumps (sanitize [dict_set k_has_solution (VBool true) legacy_normalized]))
  ∧ _load legacy_loaded
    = (Ok [dict_set k_has_solution (VBool true) legacy_normalized], legacy_loaded).
Proof.
  pose proof (load_rewrites_when_changed (λ l, eq_refl) legacy_start
                [legacy_record] _ _ eq_refl load_legacy_record) as Hthm.
  change (existsb sets_changed [legacy_record]) with true in Hthm.
  destruct Hthm as [Hfile Hagain]. split; [exact Hfile|].
  apply Hagain. intros r ->%list_elem_of_singleton. reflexivity.
Defined.


(** C3 as stated fails: the letter of the input entry is kept. *)
Lemma normalize_contest_keeps_input_letter :
  normalize_contest contest_z = Ok contest_z_normalized
  ∧ letter_at 0 = Ok (lit "A")
  ∧ lit "Z" ≠ lit "A".
Proof. split_and!; try reflexivity. intros E. vm_compute in E. discriminate E. Qed.

(** A null letter in the input is kept as well. *)
Example normalize_contest_keeps_null_letter :
  normalize_contest [(k_problems, VList [VDict [(k_letter, VNone)]])]
  = Ok [(k_problems,
         VList [VDict [(k_letter, VNone); (k_pass_count, VInt 0);
                       (k_attempt_count, VInt 0); (k_my_status, VStr s_unsubmitted)]]);
        (k_total_problems, VInt 1)].
Proof. reflexivity. Qed.

Lemma normalize_contest_problems_witness :
  ∃ total es,
    dict_get k_total_problems contest_z_normalized = Some (VInt total)
    ∧ dict_get k_problems contest_z_normalized = Some (VList es)
    ∧ (1 ≤ total ≤ 15)%Z
    ∧ Z.of_nat (length es) = total
    ∧ ∀ i, (i < length es)%nat →
        ∃ d c,
          es !! i = Some (VDict d)
          ∧ LETTERS !! i = Some c
          ∧ dict_get k_letter d
            = Some (match py_index (py_or (get k_problems contest_z) (VList [])) i with
                    | Ok (VDict e) => get_default k_letter (VStr [c]) e
                    | _ => VStr [c]
                    end).
Proof.
  apply (normalize_contest_problems contest_z contest_z_normalized).
  reflexivity.
Defined.

Lemma solved_implies_cleared_witness :
  dict_get k_unsolved_stage legacy_normalized = Some VNone
  ∧ dict_get k_unsolved_custom_label legacy_normalized = Some VNone.
Proof.
  apply (proj1 solved_implies_cleared legacy_popped legacy_normalized).
  - reflexivity.
  - reflexivity.
Defined.




Example load_orphan_record :
  _load orphan_start
  = (Ok [dict_set k_has_solution (VBool false) orphan_normalized],
     Fs (Demo.Encoded [orphan_normalized]) None ∅).
Proof. reflexivity. Qed.

Lemma legacy_solution_without_id_discarded_witness :
  (∀ changed st0, (migrate_record orphan_record changed st0).2 = st0)
  ∧ ∃ written r,
      data_file (Fs (Demo.Encoded [orphan_normalized]) None ∅)
      = write_text (dumps written)
      ∧ written !! 0%nat = Some r
      ∧ normalize_record (dict_pop k_has_solution (dict_pop k_solution orphan_record))
        = Ok r
      ∧ dict_get k_solution r = None.
Proof.
  apply (legacy_solution_without_id_discarded orphan_start [orphan_record] 0
           orphan_record k_solution _ _ eq_refl eq_refl eq_refl eq_refl
           load_orphan_record).
Defined.

Lemma normalize_record_frame_witness :
  (k_status ≠ k_owner → k_status ≠ k_has_solution →
   is_Some (dict_get k_status legacy_popped) →
   is_Some (dict_get k_status legacy_normalized))
  ∧ (k_status ∉ touched_keys →
     dict_get k_status legacy_normalized = dict_get k_status legacy_popped)
  ∧ dict_get k_status legacy_normalized = dict_get k_status legacy_popped.
Proof.
  apply (normalize_record_frame legacy_popped legacy_normalized k_status).
  reflexivity.
Defined.


(** C7 as stated fails for the endpoint of [server.py]: the refused pull is
    the last command it issues, and it answers [ok = false]. *)
Lemma server_git_pull_makes_no_retry :
  Server.git_pull (H:=unrelated) (lit "origin") (lit "main") fresh
  = (Server.PullResult false
       (ShResult 128 [] (lit "fatal: refusing to merge unrelated histories" ++ nl)
          (lit "git pull origin main")),
     after [(BASE_DIR, lit "git rev-parse --is-inside-work-tree");
        (BASE_DIR, lit "git pull origin main")]).
Proof. reflexivity. Qed.

Lemma git_pull_fallback_witness :
  ∃ r2 w3 output,
    GitUtils._sh (GitUtils.retry_command (lit "main")) pulled = (r2, w3)
    ∧ GitUtils.git_pull (lit "2026-01-01T00:00:00") [] (lit "main") fresh = (output, w3)
    ∧ issued w3
      = issued remote_read
        ++ [(DATA_DIR, GitUtils.pull_command (lit "main"));
            (DATA_DIR, GitUtils.retry_command (lit "main"))]
    ∧ output
      = [] ++ lit "=== git pull origin " ++ lit "main" ++ lit " ===" ++ nl
          ++ lit "Return code: " ++ str_of_Z (returncode refusal) ++ nl ++ nl
          ++ lit "stdout:" ++ nl ++ stdout refusal ++ nl ++ nl
          ++ match stderr refusal with
             | [] => []
             | e => lit "stderr:" ++ nl ++ e ++ nl
             end
          ++ nl ++ lit "第一次拉取？尝试使用 --allow-unrelated-histories..." ++ nl
          ++ nl ++ stdout r2 ++ nl ++ nl
          ++ (if (returncode r2 =? 0)%Z
              then lit "✓ 成功拉取远程更新" else lit "❌ 拉取失败").
Proof.
  refine (proj1 (GitProofs.git_pull_fallback (H:=unrelated))
            (lit "2026-01-01T00:00:00") [] (lit "main") fresh []
            checked remote_answer remote_read refusal pulled _ _ _ _ _).
  - reflexivity.
  - reflexivity.
  - reflexivity.
  - reflexivity.
  - discriminate.
Defined.

(** ** Witnesses of the further properties *)

Lemma normalize_record_schema_witness : normalized legacy_normalized.
Proof.
  apply (normalize_record_schema legacy_popped legacy_normalized). reflexivity.
Defined.

Lemma normalize_record_solved_witness :
  dict_get k_solved legacy_normalized
  = Some (match dict_get k_solved legacy_popped with
          | Some v => v
          | None =>
            VBool (str_eqb (lower (py_str (py_or (get k_status legacy_popped) (VStr []))))
                     s_done)
          end).
Proof.
  apply (normalize_record_solved legacy_popped legacy_normalized). reflexivity.
Defined.

Lemma normalize_record_assignee_witness :
  dict_get k_assignee owner_normalized
  = Some (clean_text
            (if is_none (get k_assignee owner_record) && truthy (get k_owner owner_record)
             then get k_owner owner_record else get k_assignee owner_record)).
Proof.
  apply (normalize_record_assignee owner_record owner_normalized). reflexivity.
Defined.

Lemma normalize_record_pass_count_witness :
  dict_get k_pass_count legacy_normalized
  = match dict_get k_pass_count legacy_popped with
    | None => None
    | Some v =>
      if is_none v then Some VNone
      else Some (match py_int v with Some n => VInt n | None => VNone end)
    end.
Proof.
  apply (normalize_record_pass_count legacy_popped legacy_normalized). reflexivity.
Defined.

Lemma normalize_contest_idempotent_witness :
  normalize_contest contest_z_normalized = Ok contest_z_normalized.
Proof.
  apply (normalize_contest_idempotent contest_z contest_z_normalized). reflexivity.
Defined.

Lemma normalize_contest_entries_witness :
  ∃ es, dict_get k_problems contest_z_normalized = Some (VList es) ∧ Forall entry_ok es.
Proof.
  apply (normalize_contest_entries contest_z contest_z_normalized). reflexivity.
Defined.


Lemma load_raises_on_unhashable_stage_witness :
  (_load unhashable_start).1 = Raise TypeError
  ∧ data_file (_load unhashable_start).2 = data_file unhashable_start
  ∧ backup_file (_load unhashable_start).2 = backup_file unhashable_start.
Proof.
  refine (load_raises_on_unhashable_stage unhashable_start [unhashable_record] 0
            unhashable_record _ _ _).
  - reflexivity.
  - reflexivity.
  - left. by exists [].
Defined.

Lemma repr_answers (v : pyval) : repr v ≠ [].
Proof. intros E%(f_equal length). discriminate E. Qed.

Lemma no_side_file : sols_nonempty (solutions legacy_start).
Proof.
  intros pid text. unfold legacy_start. cbn [solutions].
  rewrite lookup_empty. discriminate.
Qed.


Lemma get_solution_agrees_with_flag_witness :
  ∃ items i rec,
    _load_and_find_problem (lit "p1") legacy_start = (Ok (items, i), legacy_loaded)
    ∧ items !! i = Some rec
    ∧ dict_get k_has_solution
        [(k_id, VStr (lit "p1")); (k_markdown, VStr (lit "# notes"));
         (k_has_solution, VBool true); (k_updated_at, VNone)]
      = dict_get k_has_solution rec
    ∧ dict_get k_markdown
        [(k_id, VStr (lit "p1")); (k_markdown, VStr (lit "# notes"));
         (k_has_solution, VBool true); (k_updated_at, VNone)]
      = Some (VStr (default [] (universal_newlines <$> solutions legacy_loaded !! lit "p1"))).
Proof.
  refine (get_solution_agrees_with_flag (lit "p1") legacy_start
            [(k_id, VStr (lit "p1")); (k_markdown, VStr (lit "# notes"));
             (k_has_solution, VBool true); (k_updated_at, VNone)]
            legacy_loaded repr_answers _ no_side_file _).
  - intros E. discriminate E.
  - reflexivity.
Defined.

Lemma delete_problem_removes_witness :
  ∃ items st1,
    _load legacy_start = (Ok items, st1)
    ∧ data_file (Fs (Demo.Encoded []) None (delete (lit "p1") (solutions legacy_loaded)))
      = write_text (dumps (sanitize (filter (λ r, id_is (lit "p1") r = false) items)))
    ∧ solutions (Fs (Demo.Encoded []) None (delete (lit "p1") (solutions legacy_loaded)))
      = delete (lit "p1") (solutions st1)
    ∧ solutions (Fs (Demo.Encoded []) None (delete (lit "p1") (solutions legacy_loaded)))
      !! lit "p1" = None
    ∧ Exists (λ r, id_is (lit "p1") r = true) items.
Proof.
  refine (delete_problem_removes (lit "p1") legacy_start
            [(k_ok, VBool true); (k_deleted_id, VStr (lit "p1"))]
            (Fs (Demo.Encoded []) None (delete (lit "p1") (solutions legacy_loaded))) _).
  reflexivity.
Defined.

Lemma delete_problem_not_found_witness :
  delete_problem (lit "p2") legacy_start = (Raise (HTTPException 404), legacy_loaded).
Proof.
  refine (delete_problem_not_found (lit "p2") legacy_start
            [dict_set k_has_solution (VBool true) legacy_normalized] legacy_loaded _ _ _).
  - reflexivity.
  - apply Forall_singleton. by eexists.
  - apply Forall_singleton. reflexivity.
Defined.


Example update_legacy_record :
  update_problem (lit "p1") sample_item (lit "2026-01-01T00:00:00Z") legacy_start
  = (Ok (updated_record ++ [(k_has_solution, VBool true)]), updated_state).
Proof. reflexivity. Qed.

Lemma update_problem_keeps_identity_witness :
  ∃ items st1 i rec,
    _load legacy_start = (Ok items, st1)
    ∧ items !! i = Some rec
    ∧ dict_get k_id rec = Some (VStr (lit "p1"))
    ∧ dict_get k_id (updated_record ++ [(k_has_solution, VBool true)])
      = Some (VStr (lit "p1"))
    ∧ dict_get k_created_at (updated_record ++ [(k_has_solution, VBool true)])
      = dict_get k_created_at rec
    ∧ dict_get k_updated_at (updated_record ++ [(k_has_solution, VBool true)])
      = Some (VStr (lit "2026-01-01T00:00:00Z"))
    ∧ dict_get k_title (updated_record ++ [(k_has_solution, VBool true)])
      = Some (VStr (title sample_item))
    ∧ data_file updated_state
      = write_text
          (dumps (sanitize (<[i := updated_record ++ [(k_has_solution, VBool true)]]>
                              items)))
    ∧ solutions updated_state = solutions st1.
Proof.
  refine (update_problem_keeps_identity (lit "p1") sample_item
            (lit "2026-01-01T00:00:00Z") legacy_start
            (updated_record ++ [(k_has_solution, VBool true)]) updated_state _).
  reflexivity.
Defined.


Lemma export_json_embeds_solutions_witness :
  ∃ items,
    _load legacy_start = (Ok items, legacy_loaded)
    ∧ Forall2 (λ rec x,
         dict_get k_has_solution x = None
         ∧ (∀ k, k ≠ k_has_solution → k ≠ k_solution_markdown →
                 dict_get k x = dict_get k rec)
         ∧ (dict_get k_has_solution rec = Some (VBool true) →
            ∃ text, solutions legacy_loaded !! py_str (get k_id rec) = Some text
                    ∧ dict_get k_solution_markdown x
                      = Some (VStr (universal_newlines text)))
         ∧ (dict_get k_has_solution rec = Some (VBool false) →
            dict_get k_solution_markdown x = dict_get k_solution_markdown rec))
        items [legacy_normalized ++ [(k_solution_markdown, VStr (lit "# notes"))]].
Proof.
  refine (export_json_embeds_solutions legacy_start
            [legacy_normalized ++ [(k_solution_markdown, VStr (lit "# notes"))]]
            legacy_loaded repr_answers no_side_file _).
  reflexivity.
Defined.

Lemma quoted_message_plain :
  Forall (λ c, c ≠ backslash ∧ c ≠ 36 ∧ c ≠ 96) quoted_message.
Proof. repeat constructor; discriminate. Qed.

Lemma plain_message_is_one_argument_witness :
  commit_command quoted_message
  = lit "git commit -m " ++ [dquote] ++ after_open_quote quoted_message
  ∧ read_dquoted (after_open_quote quoted_message) = Closed quoted_message [].
Proof.
  exact (GitProofs.plain_message_is_one_argument quoted_message quoted_message_plain).
Defined.

Lemma utils_git_push_no_changes_witness :
  GitUtils.git_push (H:=clean) (lit "2026-01-01T00:00:00") (lit "2026-01-01 00:00:00")
    [] None (lit "main") (clean_after [])
  = (lit "ℹ️ 没有需要提交的更改",
     clean_after [(DATA_DIR, lit "git rev-parse --is-inside-work-tree");
                  (DATA_DIR, lit "git remote get-url origin");
                  (DATA_DIR, lit "git add -A");
                  (DATA_DIR, lit "git diff --cached --name-only")])
  ∧ issued (clean_after [(DATA_DIR, lit "git rev-parse --is-inside-work-tree");
                         (DATA_DIR, lit "git remote get-url origin");
                         (DATA_DIR, lit "git add -A");
                         (DATA_DIR, lit "git diff --cached --name-only")])
    = issued (clean_after [(DATA_DIR, lit "git rev-parse --is-inside-work-tree");
                           (DATA_DIR, lit "git remote get-url origin")])
      ++ [(DATA_DIR, lit "git add -A");
          (DATA_DIR, lit "git diff --cached --name-only")].
Proof.
  refine (GitProofs.utils_git_push_no_changes (H:=clean)
            (lit "2026-01-01T00:00:00") (lit "2026-01-01 00:00:00") [] None (lit "main")
            (clean_after []) []
            (clean_after [(DATA_DIR, lit "git rev-parse --is-inside-work-tree")])
            (ShResult 0 (lit "git@example.org:data.git" ++ nl) []
               (lit "git remote get-url origin"))
            (clean_after [(DATA_DIR, lit "git rev-parse --is-inside-work-tree");
                          (DATA_DIR, lit "git remote get-url origin")])
            (ShResult 0 [] [] (lit "git add -A"))
            (clean_after [(DATA_DIR, lit "git rev-parse --is-inside-work-tree");
                          (DATA_DIR, lit "git remote get-url origin");
                          (DATA_DIR, lit "git add -A")])
            (ShResult 0 nl [] (lit "git diff --cached --name-only"))
            (clean_after [(DATA_DIR, lit "git rev-parse --is-inside-work-tree");
                          (DATA_DIR, lit "git remote get-url origin");
                          (DATA_DIR, lit "git add -A");
                          (DATA_DIR, lit "git diff --cached --name-only")])
            _ _ _ _ _ _ _); reflexivity.
Defined.

Lemma utils_git_push_retry_witness :
  ∃ p2 w6 output transcript,
    GitUtils._sh (lit "git push -u origin " ++ lit "main")
      (no_upstream_after
         [(DATA_DIR, lit "git rev-parse --is-inside-work-tree");
          (DATA_DIR, lit "git remote get-url origin");
          (DATA_DIR, lit "git add -A");
          (DATA_DIR, lit "git diff --cached --name-only");
          (DATA_DIR, commit_command (lit "notes"));
          (DATA_DIR, lit "git push origin main")]) = (p2, w6)
    ∧ GitUtils.git_push (lit "2026-01-01T00:00:00") (lit "2026-01-01 00:00:00") []
        (Some (lit "notes")) (lit "main") (no_upstream_after []) = (output, w6)
    ∧ issued w6
      = issued
          (no_upstream_after
             [(DATA_DIR, lit "git rev-parse --is-inside-work-tree");
              (DATA_DIR, lit "git remote get-url origin");
              (DATA_DIR, lit "git add -A");
              (DATA_DIR, lit "git diff --cached --name-only");
              (DATA_DIR, commit_command (lit "notes"));
              (DATA_DIR, lit "git push origin main")])
        ++ [(DATA_DIR, lit "git push -u origin " ++ lit "main")]
    ∧ output
      = transcript ++ nl
          ++ (if (returncode p2 =? 0)%Z
              then lit "✓ 成功推送到远程（设置上游分支）" else lit "❌ 推送失败").
Proof.
  refine (GitProofs.utils_git_push_retry (H:=no_upstream)
            (lit "2026-01-01T00:00:00") (lit "2026-01-01 00:00:00") []
            (Some (lit "notes")) (lit "main")
            (no_upstream_after []) []
            (no_upstream_after [(DATA_DIR, lit "git rev-parse --is-inside-work-tree")])
            (ShResult 0 (lit "git@example.org:data.git" ++ nl) []
               (lit "git remote get-url origin"))
            (no_upstream_after
               [(DATA_DIR, lit "git rev-parse --is-inside-work-tree");
                (DATA_DIR, lit "git remote get-url origin")])
            (ShResult 0 [] [] (lit "git add -A"))
            (no_upstream_after
               [(DATA_DIR, lit "git rev-parse --is-inside-work-tree");
                (DATA_DIR, lit "git remote get-url origin");
                (DATA_DIR, lit "git add -A")])
            (ShResult 0 (lit "problems.json" ++ nl) []
               (lit "git diff --cached --name-only"))
            (no_upstream_after
               [(DATA_DIR, lit "git rev-parse --is-inside-work-tree");
                (DATA_DIR, lit "git remote get-url origin");
                (DATA_DIR, lit "git add -A");
                (DATA_DIR, lit "git diff --cached --name-only")])
            (ShResult 0 (lit "1 file changed" ++ nl) [] (commit_command (lit "notes")))
            (no_upstream_after
               [(DATA_DIR, lit "git rev-parse --is-inside-work-tree");
                (DATA_DIR, lit "git remote get-url origin");
                (DATA_DIR, lit "git add -A");
                (DATA_DIR, lit "git diff --cached --name-only");
                (DATA_DIR, commit_command (lit "notes"))])
            (ShResult 1 [] (lit "fatal") (lit "git push origin main"))
            (no_upstream_after
               [(DATA_DIR, lit "git rev-parse --is-inside-work-tree");
                (DATA_DIR, lit "git remote get-url origin");
                (DATA_DIR, lit "git add -A");
                (DATA_DIR, lit "git diff --cached --name-only");
                (DATA_DIR, commit_command (lit "notes"));
                (DATA_DIR, lit "git push origin main")])
            _ _ _ _ _ _ _ _ _ _ _).
  all: try reflexivity.
  all: intros E; discriminate E.
Defined.

Lemma server_git_push_ok_witness :
  returncode upstream_answer = 0%Z
  ∧ (BASE_DIR, commit_command (lit "notes"))
    ∈ issued (no_upstream_after
                [(BASE_DIR, lit "git rev-parse --is-inside-work-tree");
                 (BASE_DIR, lit "git add -A");
                 (BASE_DIR, lit "git diff --cached --name-only");
                 (BASE_DIR, commit_command (lit "notes"));
                 (BASE_DIR, lit "git push");
                 (BASE_DIR, lit "git rev-parse --abbrev-ref HEAD");
                 (BASE_DIR, lit "git push -u origin main")])
  ∧ last (issued (no_upstream_after
                    [(BASE_DIR, lit "git rev-parse --is-inside-work-tree");
                     (BASE_DIR, lit "git add -A");
                     (BASE_DIR, lit "git diff --cached --name-only");
                     (BASE_DIR, commit_command (lit "notes"));
                     (BASE_DIR, lit "git push");
                     (BASE_DIR, lit "git rev-parse --abbrev-ref HEAD");
                     (BASE_DIR, lit "git push -u origin main")]))
    = Some (BASE_DIR, cmd upstream_answer)
  ∧ (lit "push_upstream" = lit "push" ∧ cmd upstream_answer = lit "git push"
     ∨ lit "push_upstream" = lit "push_upstream"
       ∧ ∃ branch, branch ≠ [] ∧ cmd upstream_answer = lit "git push -u origin " ++ branch).
Proof.
  refine (GitProofs.server_git_push_ok (H:=no_upstream) (lit "notes") None true
            (no_upstream_after []) (lit "push_upstream") upstream_answer
            (no_upstream_after
               [(BASE_DIR, lit "git rev-parse --is-inside-work-tree");
                (BASE_DIR, lit "git add -A");
                (BASE_DIR, lit "git diff --cached --name-only");
                (BASE_DIR, commit_command (lit "notes"));
                (BASE_DIR, lit "git push");
                (BASE_DIR, lit "git rev-parse --abbrev-ref HEAD");
                (BASE_DIR, lit "git push -u origin main")]) _).
  reflexivity.
Defined.

End Examples.
